(** * threeML: plugin prototype, package data paths and the time binner

    A shallow embedding of
    - [threeML/plugin_prototype.py]   (module [PluginPrototype]),
    - [threeML/io/package_data.py]    (module [PackageData]),
    - the time binner behind [create_time_bins], which
      [threeML/test/test_gbm.py] exercises (module [Binner]).

    Python objects are attribute dictionaries, exceptions and the mutation of
    [self] are threaded through a small state-and-error monad, and times are
    exact rationals. *)

From Stdlib Require Import String Ascii ZArith QArith Qround Qminmax Lqa
  List Bool Lia Sorted.
From stdpp Require Import base option gmap strings list pretty sorting.

Local Open Scope string_scope.

(** ** Python values, exceptions and the method monad *)

Module Py.

(** An [astromodels] [Parameter] object: current value and optional bounds. *)
Record AstroParameter := mkParameter {
  par_value : Q;
  par_min : option Q;
  par_max : option Q
}.

(** The Python values the modelled code can be handed.  A [dict] keeps its
    items in insertion order, which is the order iteration yields its keys.
    A [types.MappingProxyType] is a mapping, a read-only view of a dict, that
    is not a [dict]. *)
#[warnings="-register-all"]
Inductive PyVal :=
| VNone
| VBool (b : bool)
| VInt (z : Z)
| VStr (s : string)
| VTuple (items : list PyVal)
| VList (items : list PyVal)
| VDict (items : list (string * AstroParameter))
| VMappingProxy (items : list (string * AstroParameter))
| VParameter (p : AstroParameter)
| VIndependentVariable (name : string) (value : Q).

(** [isinstance(v, dict)] *)
Definition isinstance_dict (v : PyVal) : bool :=
  match v with VDict _ => true | _ => false end.

(** [isinstance(v, collections.abc.Mapping)]: whether [v] is a mapping. *)
Definition is_mapping (v : PyVal) : bool :=
  match v with VDict _ | VMappingProxy _ => true | _ => false end.

(** [isinstance(v, IndependentVariable)] *)
Definition isinstance_IndependentVariable (v : PyVal) : bool :=
  match v with VIndependentVariable _ _ => true | _ => false end.

(** [type(v)] as ["%s"] prints it. *)
Definition type_repr (v : PyVal) : string :=
  match v with
  | VNone => "<class 'NoneType'>"
  | VBool _ => "<class 'bool'>"
  | VInt _ => "<class 'int'>"
  | VStr _ => "<class 'str'>"
  | VTuple _ => "<class 'tuple'>"
  | VList _ => "<class 'list'>"
  | VDict _ => "<class 'dict'>"
  | VMappingProxy _ => "<class 'mappingproxy'>"
  | VParameter _ => "<class 'astromodels.core.parameter.Parameter'>"
  | VIndependentVariable _ _ =>
      "<class 'astromodels.core.parameter.IndependentVariable'>"
  end.

Inductive ExcClass :=
| AssertionError | ValueError | TypeError | AttributeError | RuntimeError
| FileExistsError | FileNotFoundError | NotADirectoryError.

Record PyExc := mkExc { exc_class : ExcClass; exc_msg : string }.

Inductive Result (A : Type) :=
| Ok (a : A)
| Raise (e : PyExc).
Arguments Ok {A} a.
Arguments Raise {A} e.

(** A Python computation over a mutable state [S]: it ends with a value or
    with an exception, and in both cases leaves a state behind. *)
Definition M (S A : Type) : Type := S -> Result A * S.

#[global] Instance M_ret {S} : MRet (M S) := fun A (a : A) s => (Ok a, s).

(** Sequencing: an exception skips the rest and keeps the state it left. *)
#[global] Instance M_bind {S} : MBind (M S) :=
  fun A B (k : A -> M S B) (m : M S A) s =>
    match m s with
    | (Ok a, s') => k a s'
    | (Raise e, s') => (Raise e, s')
    end.

Definition raise {S A} (c : ExcClass) (msg : string) : M S A :=
  fun s => (Raise (mkExc c msg), s).

Inductive LogLevel := ERROR | WARNING.

(** What a method of an object can touch: the instance dictionary of [self]
    and the records handed to the module logger. *)
Record World := mkWorld {
  self : gmap string PyVal;
  log : list (LogLevel * string)
}.

(** [self.<attr> = v] *)
Definition setattr (attr : string) (v : PyVal) : M World unit :=
  fun w => (Ok tt, mkWorld (<[attr := v]> (self w)) (log w)).

(** [self.<attr>] *)
Definition getattr (attr : string) : M World PyVal :=
  fun w => match self w !! attr with
           | Some v => (Ok v, w)
           | None => (Raise (mkExc AttributeError
                        ("object has no attribute '" +:+ attr +:+ "'")), w)
           end.

Definition log_error (msg : string) : M World unit :=
  fun w => (Ok tt, mkWorld (self w) (log w ++ [(ERROR, msg)])).

Definition log_warning (msg : string) : M World unit :=
  fun w => (Ok tt, mkWorld (self w) (log w ++ [(WARNING, msg)])).

(** [len(v)]; [None] where the type has no [__len__]. *)
Definition py_len (v : PyVal) : option nat :=
  match v with
  | VStr s => Some (String.length s)
  | VTuple l | VList l => Some (length l)
  | VDict d | VMappingProxy d => Some (length d)
  | _ => None
  end.

Fixpoint chars (s : string) : list PyVal :=
  match s with
  | EmptyString => []
  | String c s' => VStr (String c EmptyString) :: chars s'
  end.

(** The items iteration yields, as tuple unpacking consumes them. *)
Definition py_iter (v : PyVal) : list PyVal :=
  match v with
  | VStr s => chars s
  | VTuple l | VList l => l
  | VDict d | VMappingProxy d => (fun kv => VStr (fst kv)) <$> d
  | _ => []
  end.

(** [c.lower()] on one character; only [A]..[Z] change.  (Outside ASCII,
    [str.lower] never yields a letter of ["total"].) *)
Definition lower_ascii (c : ascii) : ascii :=
  let n := nat_of_ascii c in
  if (65 <=? n)%nat && (n <=? 90)%nat then ascii_of_nat (n + 32) else c.

(** [s.lower()] *)
Fixpoint lower (s : string) : string :=
  match s with
  | EmptyString => EmptyString
  | String c s' => String (lower_ascii c) (lower s')
  end.

End Py.

(** ** [threeML/plugin_prototype.py] *)

Module PluginPrototype.
Import Py.

Section Prototype.

(** Which strings are valid Python identifiers is a parameter. *)
Variable is_valid_variable_name : string -> bool.

Definition invalid_name_msg (name : string) : string :=
  "Name " +:+ name +:+ " is not a valid name for a plugin.".

(** Modelled from the spec: [invalid_plugin_name(name, log)] of
    [threeML.io.logging], which is not among the sources.  The spec (§6, §7)
    has the name be a valid identifier and lists "invalid plugin name
    (non-identifier names)" under the errors of class [AssertionError]. *)
Definition invalid_plugin_name (name : string) : M World unit :=
  if is_valid_variable_name name then mret tt
  else (log_error (invalid_name_msg name) ;;
        raise AssertionError (invalid_name_msg name)).

Definition total_msg : string :=
  "Sorry, you cannot use 'total' as name for a plugin.".

Definition not_a_dict_msg : string :=
  "nuisance_parameters are not a dict and are invalid!".

(** [PluginPrototype.__init__(self, name, nuisance_parameters)] *)
Definition __init__ (name : string) (nuisance_parameters : PyVal)
    : M World unit :=
  invalid_plugin_name name ;;
  (if String.eqb (lower name) "total"
   then (log_error total_msg ;; raise AssertionError total_msg)
   else mret tt) ;;
  setattr "_name" (VStr name) ;;
  (if negb (isinstance_dict nuisance_parameters)
   then (log_error not_a_dict_msg ;; raise AssertionError not_a_dict_msg)
   else mret tt) ;;
  setattr "_nuisance_parameters" nuisance_parameters ;;
  setattr "_tag" VNone.

(** Instantiation: [__init__] runs on a fresh object with no attributes. *)
Definition construct (name : string) (nuisance_parameters : PyVal)
    (l : list (LogLevel * string)) : Result unit * World :=
  __init__ name nuisance_parameters (mkWorld ∅ l).

(** The [name] property. *)
Definition name : M World PyVal := getattr "_name".

(** [get_name(self)] *)
Definition get_name : M World PyVal :=
  log_warning "Do not use get_name() for plugins, use the .name property" ;;
  name.

(** The [nuisance_parameters] property. *)
Definition nuisance_parameters : M World PyVal :=
  getattr "_nuisance_parameters".

(** [update_nuisance_parameters(self, new_nuisance_parameters)] *)
Definition update_nuisance_parameters (new_nuisance_parameters : PyVal)
    : M World unit :=
  (if negb (isinstance_dict new_nuisance_parameters)
   then (log_error not_a_dict_msg ;; raise AssertionError not_a_dict_msg)
   else mret tt) ;;
  setattr "_nuisance_parameters" new_nuisance_parameters.

(** [_get_tag(self)], the getter of the [tag] property. *)
Definition _get_tag : M World PyVal := getattr "_tag".

Definition tag_spec_msg : string :=
  "Tag specification should be (independent_variable, start[, end])".

Definition tag_warning (independent_variable : PyVal) : string :=
  "When tagging a plugin, you should use an IndependentVariable instance. "
  +:+ "You used instead an instance of a " +:+ type_repr independent_variable
  +:+ " object. This might lead to crashes or other problems.".

(** [_set_tag(self, spec)], the setter of the [tag] property.  [len(spec)]
    raises [TypeError] on a value without a length; the unpacking that follows
    a successful length test consumes exactly the items of [spec]. *)
Definition _set_tag (spec : PyVal) : M World unit :=
  match py_len spec with
  | None =>
      raise TypeError ("object of type " +:+ type_repr spec +:+ " has no len()")
  | Some n =>
      '(independent_variable, start, end_) ←
        (if (n =? 2)%nat then
           match py_iter spec with
           | [independent_variable; start] =>
               mret (independent_variable, start, VNone)
           | _ => raise ValueError "wrong number of values to unpack"
           end
         else if (n =? 3)%nat then
           match py_iter spec with
           | [independent_variable; start; end_] =>
               mret (independent_variable, start, end_)
           | _ => raise ValueError "wrong number of values to unpack"
           end
         else raise ValueError tag_spec_msg);
      (if negb (isinstance_IndependentVariable independent_variable)
       then log_warning (tag_warning independent_variable)
       else mret tt) ;;
      setattr "_tag" (VTuple [independent_variable; start; end_])
  end.

End Prototype.

End PluginPrototype.

(** ** [threeML/io/package_data.py] *)

Module PackageData.
Import Py.

(** A [pathlib] path, as its [parts]: an absolute path starts with the root
    part ["/"]. *)
Definition Path : Type := list string.

Inductive Node := Dir | File.

(** The part of the operating system the module reads and writes. *)
Record OS := mkOS {
  environ : gmap string string;      (* os.environ *)
  passwd_home : option string;       (* the home of the password database *)
  fs : gmap (list string) Node       (* what exists in the file system *)
}.

Fixpoint split_slash (s cur : string) : list string :=
  match s with
  | EmptyString => [cur]
  | String c s' =>
      if Ascii.eqb c "/" then cur :: split_slash s' EmptyString
      else split_slash s' (cur +:+ String c EmptyString)
  end.

Definition root_of (s : string) : list string :=
  match s with
  | String "/" (String "/" (String "/" _)) => ["/"]
  | String "/" (String "/" _) => ["//"]
  | String "/" _ => ["/"]
  | _ => []
  end.

(** [Path(s)]: empty and ["."] segments vanish. *)
Definition Path_of_string (s : string) : Path :=
  (root_of s ++
   filter (fun x => negb (String.eqb x EmptyString) && negb (String.eqb x "."))
          (split_slash s EmptyString))%list.

(** [p / s] *)
Definition joinpath (p : Path) (s : string) : Path :=
  match root_of s with
  | [] => (p ++ Path_of_string s)%list
  | _ => Path_of_string s
  end.

(** [Path().home()]: [$HOME], else the password database. *)
Definition Path_home : M OS Path :=
  fun os =>
    match environ os !! "HOME" with
    | Some h => (Ok (Path_of_string h), os)
    | None =>
        match passwd_home os with
        | Some h => (Ok (Path_of_string h), os)
        | None =>
            (Raise (mkExc RuntimeError "Could not determine home directory."),
             os)
        end
    end.

(** [p.exists()] *)
Definition path_exists (p : Path) : M OS bool :=
  fun os => (Ok (bool_decide (is_Some (fs os !! p))), os).

Definition is_dir (p : Path) (os : OS) : bool :=
  match fs os !! p with Some Dir => true | _ => false end.

(** [p.parent]: the root and the empty path are their own parents. *)
Definition parent (p : Path) : Path :=
  match p with
  | [] => []
  | [r] => if String.eqb r "/" || String.eqb r "//" then [r] else []
  | _ => removelast p
  end.

(** Whether the nearest of [p] and its ancestors that exists is a regular
    file: what stops the resolution of a path below [p] with [ENOTDIR]
    rather than [ENOENT].  The walk follows [parent], so [fuel] beyond the
    number of parts is never used. *)
Fixpoint nearest_is_file (fuel : nat) (p : Path)
    (files : gmap (list string) Node) : bool :=
  match files !! p with
  | Some File => true
  | Some Dir => false
  | None =>
      match fuel with
      | O => false
      | S f =>
          if bool_decide (parent p = p) then false
          else nearest_is_file f (parent p) files
      end
  end.

(** [os.mkdir(p)]: the directory is made below an existing directory; a
    regular file on the way gives [NotADirectoryError], a missing parent with
    only directories above it [FileNotFoundError]. *)
Definition os_mkdir (p : Path) : M OS unit :=
  fun os =>
    match fs os !! p with
    | Some _ => (Raise (mkExc FileExistsError "File exists"), os)
    | None =>
        match fs os !! parent p with
        | Some Dir =>
            (Ok tt, mkOS (environ os) (passwd_home os) (<[p := Dir]> (fs os)))
        | Some File =>
            (Raise (mkExc NotADirectoryError "Not a directory"), os)
        | None =>
            if nearest_is_file (length p) (parent p) (fs os)
            then (Raise (mkExc NotADirectoryError "Not a directory"), os)
            else (Raise (mkExc FileNotFoundError "No such file or directory"),
                  os)
        end
    end.

(** [p.mkdir(parents=..., exist_ok=...)] as [pathlib] writes it: on
    [FileNotFoundError] the parents are made first.  The recursion follows
    [parent], so [fuel] beyond the number of parts is never used. *)
Fixpoint mkdir_fuel (fuel : nat) (p : Path) (parents exist_ok : bool)
    : M OS unit :=
  fun os =>
    match os_mkdir p os with
    | (Ok tt, os') => (Ok tt, os')
    | (Raise e, os') =>
        match exc_class e with
        | FileNotFoundError =>
            if negb parents || bool_decide (parent p = p) then (Raise e, os')
            else
              match fuel with
              | O => (Raise e, os')
              | S f =>
                  (mkdir_fuel f (parent p) true true ;;
                   mkdir_fuel f p false exist_ok) os'
              end
        | _ =>
            if negb exist_ok || negb (is_dir p os') then (Raise e, os')
            else (Ok tt, os')
        end
    end.

Definition mkdir (p : Path) (parents exist_ok : bool) : M OS unit :=
  mkdir_fuel (S (length p)) p parents exist_ok.

(** Module level: [_custom_config_path = os.environ.get("THREEML_CONFIG")] *)
Definition _custom_config_path (os : OS) : option string :=
  environ os !! "THREEML_CONFIG".

(** [get_path_of_user_dir()] *)
Definition get_path_of_user_dir : M OS Path :=
  home ← Path_home;
  let user_dir := joinpath home ".threeML" in
  ex ← path_exists user_dir;
  (if negb ex then mkdir user_dir false false else mret tt) ;;
  mret user_dir.

(** [get_path_of_user_config()], reading the module-level
    [_custom_config_path].  The first binding of [config_path] is the one the
    [if] makes; the second, unconditional one shadows it. *)
Definition get_path_of_user_config (_custom_config_path : option string)
    : M OS Path :=
  let config_path :=
    match _custom_config_path with
    | Some s => Some (Path_of_string s)
    | None => None
    end in
  home ← Path_home;
  let config_path := joinpath (joinpath home ".config") "threeML" in
  ex ← path_exists config_path;
  (if negb ex then mkdir config_path true false else mret tt) ;;
  mret config_path.

(** Importing the module and calling [get_path_of_user_config()]. *)
Definition import_and_get_path_of_user_config : M OS Path :=
  fun os => get_path_of_user_config (_custom_config_path os) os.

(** The system with [THREEML_CONFIG] set to [v], or unset. *)
Definition with_THREEML_CONFIG (v : option string) (os : OS) : OS :=
  mkOS (match v with
        | Some s => <["THREEML_CONFIG" := s]> (environ os)
        | None => delete "THREEML_CONFIG" (environ os)
        end)
       (passwd_home os) (fs os).

(** [home/.config/threeML] *)
Definition default_config_path (home : Path) : Path :=
  (home ++ [".config"; "threeML"])%list.

End PackageData.

(** ** The time binner behind [create_time_bins] *)

Module Binner.
Import Py.
Local Open Scope Q_scope.

(** Modelled from the spec: the plugin class [FermiGBMTTELike] with its
    [create_time_bins], [bins] and [text_bins] is not among the sources; only
    [test_gbm.py] calls it.  What follows is the Binner of the spec (§4.2)
    with the bin cache of §5 and the error classes of §7.  A bin is its pair of
    boundaries (counts are filled in afterwards by the event store, §4.2). *)
Record Bin := mkBin { bin_start : Q; bin_stop : Q }.

(** Modelled from the spec: an event of the store (§3). *)
Record Event := mkEvent { arrival_time : Q; channel : nat }.

(** Modelled from the spec: the background polynomial of one channel (§3);
    order −1, no coefficients, is the zero model. *)
Record BackgroundPolynomial := mkPoly { order : Z; coefficients : list Q }.

(** Modelled from the spec: the state of one plugin instance the binner
    reads and writes: the events, the background fit if one exists, and the
    cached bins, [None] while unset (§5). *)
Record TTE := mkTTE {
  events : list Event;
  background : option (list BackgroundPolynomial);
  cached_bins : option (list Bin)
}.

(** Modelled from the spec: [ConfigurationError], "class of RuntimeError"
    (§7), raised by the absent [create_time_bins]. *)
Definition ConfigurationError : ExcClass := RuntimeError.

(** Modelled from the spec: [NotComputedError], "class of AttributeError"
    (§7), raised by the absent [bins] property. *)
Definition NotComputedError : ExcClass := AttributeError.

(** [x < y], decided. *)
Definition Qlt_bool (x y : Q) : bool := negb (Qle_bool y x).

(** *** Fixed width *)

(** Modelled from the spec: the [k]-th bin of the absent fixed-width binner,
    "Bins = [start, start+dt), [start+dt, start+2dt), … clipped to stop"
    (§4.2). *)
Definition candidate_bin (start stop dt : Q) (k : nat) : Bin :=
  mkBin (start + inject_Z (Z.of_nat k) * dt)
        (Qmin (start + inject_Z (Z.of_nat (S k)) * dt) stop).

(** Modelled from the spec: the loop of the absent fixed-width binner, the
    clipped bins from the [k]-th on for as long as they begin before [stop]. *)
Fixpoint clipped_bins (fuel k : nat) (start stop dt : Q) : list Bin :=
  match fuel with
  | O => []
  | S f =>
      if Qlt_bool (start + inject_Z (Z.of_nat k) * dt) stop
      then candidate_bin start stop dt k :: clipped_bins f (S k) start stop dt
      else []
  end.

(** Modelled from the spec: the test the absent fixed-width binner applies,
    "only complete bins are retained" (§4.2). *)
Definition is_complete (dt : Q) (b : Bin) : bool :=
  Qle_bool dt (bin_stop b - bin_start b).

(** Modelled from the spec: the absent fixed-width binner ([constant]); "the
    final partial bin is dropped if shorter than dt" (§4.2).  No more than
    ⌈(stop−start)/dt⌉ bins begin before [stop], which bounds the loop. *)
Definition bin_by_constant (start stop dt : Q) : list Bin :=
  List.filter (is_complete dt)
    (clipped_bins (Z.to_nat (Qceiling ((stop - start) / dt))) 0 start stop dt).

(** *** Edges to bins *)

(** Modelled from the spec: how the absent adaptive binners return their
    edges as bins ("returns block edges as bins", §4.2): consecutive edges
    bound one bin each. *)
Definition bins_of_edges (edges : list Q) : list Bin :=
  zip_with mkBin edges (tail edges).

(** Modelled from the spec: what the absent binners are handed, the "ordered
    event times restricted to active interval" (§4.2). *)
Definition events_in (start stop : Q) (evs : list Event) : list Q :=
  List.filter (fun t => Qle_bool start t && Qle_bool t stop)
              (arrival_time <$> evs).

Section Algorithms.

(** The numerical kernels of the two adaptive binners, which the spec names
    but does not define, are parameters: the significance of [n] observed
    counts over an expected background, the fitness of a block of [n] events
    and a given width, and the penalty per changepoint as a function of
    [p0]. *)
Variable significance : nat -> Q -> Q.
Variable block_fitness : nat -> Q -> Q.
Variable ncp_prior : Q -> Q.

(** *** Significance-adaptive *)

(** Modelled from the spec: the absent background model's "predicted rate
    integrated over the bin's exposure" (§4.4) for one polynomial over
    [[a, b]]; [k] is the degree of the first coefficient. *)
Fixpoint integral_from (k : nat) (cs : list Q) (a b : Q) : Q :=
  match cs with
  | [] => 0
  | c :: cs' =>
      c * (b ^ Z.of_nat (S k) - a ^ Z.of_nat (S k)) / inject_Z (Z.of_nat (S k))
      + integral_from (S k) cs' a b
  end.

(** Modelled from the spec: the background counts the absent background
    model expects in [[a, b]], all channels together. *)
Definition expected_background (polys : list BackgroundPolynomial) (a b : Q)
    : Q :=
  foldr (fun p acc => integral_from 0 (coefficients p) a b + acc) 0 polys.

(** Modelled from the spec: the loop of the absent significance binner,
    "Accumulates events left-to-right, closing a bin once the
    Poisson-vs-background significance of accumulated counts reaches sigma"
    (§4.2).  [opened] is where the open bin starts and [counts] what it has
    accumulated; a bin closes at the event that reaches [sigma], and the next
    one opens there. *)
Fixpoint significance_scan (sigma : Q) (polys : list BackgroundPolynomial)
    (opened : Q) (counts : nat) (ts : list Q) : list Bin :=
  match ts with
  | [] => []
  | t :: rest =>
      if Qle_bool sigma
           (significance (S counts) (expected_background polys opened t))
      then mkBin opened t :: significance_scan sigma polys t 0 rest
      else significance_scan sigma polys opened (S counts) rest
  end.

(** Modelled from the spec: the absent significance binner
    ([significance]).  It is "a pure mapping from (ordered event times
    restricted to active interval, parameters)" (§4.2), so the first bin opens
    at the first event. *)
Definition bin_by_significance (sigma : Q) (polys : list BackgroundPolynomial)
    (ts : list Q) : list Bin :=
  match ts with
  | [] => []
  | t0 :: rest => significance_scan sigma polys t0 1 rest
  end.

(** *** Bayesian blocks *)

(** Modelled from the spec: the objective of the absent Bayesian-blocks
    binner, "block-fitness … penalized by a prior … per extra changepoint"
    (§4.2): the value of ending the best partition of the edges [0..r] with
    one more block from edge [r] to edge [R]. *)
Definition score (ts best : list Q) (p0 : Q) (R r : nat) : Q :=
  nth r best 0 + block_fitness (R - r) (nth R ts 0 - nth r ts 0)
  - ncp_prior p0.

(** Modelled from the spec: one step of the "dynamic programming over
    candidate changepoints (all event times)" (§4.2): the best last
    changepoint before edge [R], and its value; the first maximum wins. *)
Definition best_split (ts best : list Q) (p0 : Q) (R : nat) : Q * nat :=
  fold_left
    (fun acc r =>
       if Qlt_bool (fst acc) (score ts best p0 R r)
       then (score ts best p0 R r, r) else acc)
    (seq 1 (R - 1)) (score ts best p0 R 0, 0%nat).

(** Modelled from the spec: the tables of that dynamic program for the
    edges [0..n]: the best value and the last changepoint of each prefix. *)
Fixpoint fill (ts : list Q) (p0 : Q) (n : nat) : list Q * list nat :=
  match n with
  | O => ([0], [0%nat])
  | S m =>
      let '(best, last) := fill ts p0 m in
      let '(v, r) := best_split ts best p0 (S m) in
      ((best ++ [v])%list, (last ++ [r])%list)
  end.

(** Modelled from the spec: reading the optimal partition off the tables of
    the dynamic program, walking the changepoints back from edge [R]. *)
Fixpoint backtrack (last : list nat) (fuel R : nat) (acc : list nat)
    : list nat :=
  match R, fuel with
  | O, _ => O :: acc
  | _, O => R :: acc
  | _, S f => backtrack last f (nth R last 0%nat) (R :: acc)
  end.

(** Modelled from the spec: the changepoints of the optimal partition, as
    indices into the event times. *)
Definition change_points (ts : list Q) (p0 : Q) : list nat :=
  backtrack (snd (fill ts p0 (length ts - 1))) (length ts) (length ts - 1) [].

(** Modelled from the spec: the absent Bayesian-blocks binner
    ([bayesblocks]), "Finds the partition of event arrival times into
    contiguous blocks maximizing a block-fitness log-likelihood … penalized by
    a prior … per extra changepoint; returns block edges as bins via dynamic
    programming over candidate changepoints (all event times)" (§4.2). *)
Definition bin_by_bayesian_blocks (p0 : Q) (ts : list Q) : list Bin :=
  bins_of_edges ((fun i => nth i ts 0) <$> change_points ts p0).

(** *** [create_time_bins] and the cache *)

(** Modelled from the spec: the one parameter each method of the absent
    [create_time_bins] requires and recognises (§4.2). *)
Definition required_parameter (method : string) : option string :=
  if String.eqb method "constant" then Some "dt"
  else if String.eqb method "significance" then Some "sigma"
  else if String.eqb method "bayesblocks" then Some "p0"
  else None.

(** Modelled from the spec: the ranges of the parameters of the absent
    [create_time_bins] (§4.2): [dt > 0], [sigma > 0], [0 < p0 < 1]. *)
Definition valid_value (key : string) (v : Q) : bool :=
  if String.eqb key "p0" then Qlt_bool 0 v && Qlt_bool v 1
  else Qlt_bool 0 v.

(** Modelled from the spec: the validation policy of the absent
    [create_time_bins] (§4.2), "an unrecognized method value, or a method
    invoked with parameters not in its recognized set …, fails with
    RuntimeError naming the missing/invalid parameter".  It returns the value
    of the method's parameter. *)
Definition validate (method : string) (params : gmap string Q) : M TTE Q :=
  match required_parameter method with
  | None => raise ConfigurationError ("unknown method " +:+ method)
  | Some key =>
      match params !! key with
      | None => raise ConfigurationError ("missing parameter " +:+ key)
      | Some v =>
          if negb (bool_decide (dom params ⊆ ({[key]} : gset string)))
          then raise ConfigurationError
                 ("unrecognized parameter for method " +:+ method)
          else if negb (valid_value key v)
          then raise ConfigurationError ("invalid parameter " +:+ key)
          else mret v
      end
  end.

(** Modelled from the spec: "A successful call replaces any previously
    cached bins" (§4.2). *)
Definition set_bins (bs : list Bin) : M TTE unit :=
  fun st => (Ok tt, mkTTE (events st) (background st) (Some bs)).

(** Modelled from the spec: the absent [create_time_bins(start, stop,
    method, **method_params)] (§6): validation first, then the method's binner
    on the events of [[start, stop]].  The significance binner "fails with
    RuntimeError if invoked before a background fit exists" (§4.2). *)
Definition create_time_bins (start stop : Q) (method : string)
    (params : gmap string Q) : M TTE unit :=
  v ← validate method params;
  bs ← (fun st =>
          let ts := events_in start stop (events st) in
          if String.eqb method "constant" then
            (Ok (bin_by_constant start stop v), st)
          else if String.eqb method "significance" then
            match background st with
            | None => raise RuntimeError "no background fit" st
            | Some polys => (Ok (bin_by_significance v polys ts), st)
            end
          else (Ok (bin_by_bayesian_blocks v ts), st));
  set_bins bs.

(** One call as the test suite makes it. *)
Record Call := mkCall {
  call_start : Q;
  call_stop : Q;
  call_method : string;
  call_params : gmap string Q
}.

(** A sequence of [create_time_bins] calls on one instance, each exception
    caught by the caller; the outcomes are kept. *)
Fixpoint run_calls (calls : list Call) (st : TTE)
    : list (Result unit) * TTE :=
  match calls with
  | [] => ([], st)
  | c :: cs =>
      let '(r, st1) :=
        create_time_bins (call_start c) (call_stop c) (call_method c)
                         (call_params c) st in
      let '(rs, st2) := run_calls cs st1 in
      (r :: rs, st2)
  end.

End Algorithms.



(** Modelled from the spec: a newly constructed instance has no bins (§5,
    [Unset]). *)
Definition new_instance (evs : list Event)
    (bkg : option (list BackgroundPolynomial)) : TTE :=
  mkTTE evs bkg None.

(** Modelled from the spec: the absent [bins] property, as [test_gbm.py]
    unpacks it: the starts and the stops.  "Querying bins before
    create_time_bins has ever succeeded fails with AttributeError-class not
    yet computed error" (§4.2). *)
Definition bins : M TTE (list Q * list Q) :=
  fun st =>
    match cached_bins st with
    | None => raise NotComputedError "bins are not yet computed" st
    | Some bs => (Ok (bin_start <$> bs, bin_stop <$> bs), st)
    end.

(** A time as text. *)
Definition text_of_Q (q : Q) : string :=
  let r := Qred q in
  if (Qden r =? 1)%positive then pretty (Qnum r)
  else pretty (Qnum r) +:+ "/" +:+ pretty (Zpos (Qden r)).

(** Modelled from the spec: the absent [text_bins] property, one label
    ["start-stop"] per cached bin, failing like [bins] while there are
    none. *)
Definition text_bins : M TTE (list string) :=
  fun st =>
    match cached_bins st with
    | None => raise NotComputedError "bins are not yet computed" st
    | Some bs =>
        (Ok ((fun b => text_of_Q (bin_start b) +:+ "-"
                       +:+ text_of_Q (bin_stop b)) <$> bs), st)
    end.

End Binner.

(** ** What the package data functions may do to the system *)

Module PackageDataInv.
Import PackageData.

(** From [os] to [os'] the environment is untouched, nothing that existed
    is altered, and whatever is new is a directory on the way to [p]. *)
Definition only_adds_ancestors (p : Path) (os os' : OS) : Prop :=
  environ os' = environ os
  /\ passwd_home os' = passwd_home os
  /\ (forall q n, fs os !! q = Some n -> fs os' !! q = Some n)
  /\ (forall q n, fs os' !! q = Some n ->
        fs os !! q = Some n \/ (n = Dir /\ q `prefix_of` p)).

(** [home/.threeML] *)
Definition user_dir_path (home : Path) : Path := (home ++ [".threeML"])%list.

End PackageDataInv.

(** ** The bin check of [threeML/test/test_gbm.py] *)

Module TestGbm.
Local Open Scope Q_scope.

(** What the check can raise: a failed [assert], an index out of range. *)
Inductive Exc := AssertionError | IndexError.

Inductive Outcome (A : Type) :=
| Returned (a : A)
| Raised (e : Exc).
Arguments Returned {A} a.
Arguments Raised {A} e.

Section ExamineBins.

(** [np.round(x, decimals=d)].  The arrays hold finite floats, each taken as
    the rational it denotes, so that [<], [<=] and [>=] on them are exact.
    What [np.round] returns is the outcome of binary64 arithmetic in numpy
    and is left open. *)
Variable np_round : Q -> nat -> Q.

(** [examine_bins(bins, real_start, real_stop, expected_number_of_bins)];
    [bins] is the sequence the [bins] property returns, its arrays as
    lists. *)
Definition examine_bins (bins : list (list Q)) (real_start real_stop : Q)
    (expected_number_of_bins : Z) : Outcome unit :=
  match bins with
  | [starts; stops] =>
      match head starts with
      | None => Raised IndexError
      | Some first_start =>
          if negb (Qle_bool real_start (np_round first_start 3))
          then Raised AssertionError
          else
            match last stops with
            | None => Raised IndexError
            | Some last_stop =>
                if negb (Qle_bool (np_round last_stop 3) real_stop)
                then Raised AssertionError
                else if negb (forallb (fun xy => negb (Qle_bool xy.2 xy.1))
                                      (zip starts stops))
                then Raised AssertionError
                else if negb (Z.of_nat (length starts)
                              =? expected_number_of_bins)%Z
                then Raised AssertionError
                else if negb (Z.of_nat (length stops)
                              =? expected_number_of_bins)%Z
                then Raised AssertionError
                else Returned tt
            end
      end
  | _ => Raised AssertionError
  end.

End ExamineBins.

End TestGbm.

(** ** Concrete inputs

    The tests of [test_gbm.py] in small: a plugin named [NAI3], a home
    directory, a handful of events between 0 and 10, and the calls the test
    makes before and after the first successful binning. *)

Module Samples.
Import Py.
Local Open Scope Q_scope.

Definition sample_map : PyVal :=
  VDict [("cons", mkParameter 1 (Some 0) None)].

(** The same parameters behind a read-only [types.MappingProxyType]: a
    mapping that is not a [dict]. *)
Definition sample_proxy : PyVal :=
  VMappingProxy [("cons", mkParameter 1 (Some 0) None)].

Definition sample_world : World :=
  mkWorld {["_name" := VStr "NAI3"; "_nuisance_parameters" := sample_map;
            "_tag" := VNone]} [].

Definition sample_os : PackageData.OS :=
  PackageData.mkOS {["HOME" := "/home/user"]} None
    {[ ["/"] := PackageData.Dir; ["/"; "home"] := PackageData.Dir;
       ["/"; "home"; "user"] := PackageData.Dir ]}.

(** Counts in excess of the expected background. *)
Definition sample_significance (n : nat) (b : Q) : Q :=
  inject_Z (Z.of_nat n) - b.

(** A fitness that rewards dense blocks. *)
Definition sample_fitness (n : nat) (width : Q) : Q :=
  inject_Z (Z.of_nat n) * inject_Z (Z.of_nat n) / width.

Definition sample_prior (p0 : Q) : Q := 10 * p0.

Definition sample_events : list Binner.Event :=
  (fun t => Binner.mkEvent t 0) <$>
    [1 # 2; 1; 2; 3; 7 # 2; 4; 8; 9; 19 # 2].

Definition sample_instance : Binner.TTE :=
  Binner.new_instance sample_events (Some [Binner.mkPoly 0 [1 # 4]]).

Definition sample_create_time_bins :=
  Binner.create_time_bins sample_significance sample_fitness sample_prior.

(** The calls [test_gbm_binning] expects to fail. *)
Definition failing_calls : list Binner.Call :=
  [ Binner.mkCall 0 10 "constant" ∅;
    Binner.mkCall 0 10 "significance" ∅;
    Binner.mkCall 0 10 "constant" {["p0" := 1 # 10]};
    Binner.mkCall 0 10 "significance" {["dt" := 1]};
    Binner.mkCall 0 10 "not_a_method" ∅ ].

Definition after_failing_calls : list (Result unit) * Binner.TTE :=
  Eval vm_compute in
    Binner.run_calls sample_significance sample_fitness sample_prior
      failing_calls sample_instance.

Definition after_bayesblocks : Binner.TTE :=
  Eval vm_compute in
    snd (sample_create_time_bins 0 10 "bayesblocks" {["p0" := 1 # 10]}
           sample_instance).

Definition after_significance : Binner.TTE :=
  Eval vm_compute in
    snd (sample_create_time_bins 0 10 "significance" {["sigma" := 2]}
           sample_instance).

End Samples.

(** ** More concrete inputs *)

Module ExtraSamples.
Import Py PackageData.
Local Open Scope Q_scope.

(** [np.round] on the whole numbers of the samples, which it leaves as they
    are. *)
Definition sample_np_round (q : Q) (decimals : nat) : Q := q.

(** A system on which the home directory has not been made yet. *)
Definition bare_os : OS :=
  mkOS {["HOME" := "/home/user"]} None {[ ["/"] := Dir ]}.

(** A system without [HOME] and without a password entry. *)
Definition homeless_os : OS := mkOS ∅ None {[ ["/"] := Dir ]}.

(** A system on which [/home] is a regular file. *)
Definition home_file_os : OS :=
  mkOS {["HOME" := "/home/user"]} None
    {[ ["/"] := Dir; ["/"; "home"] := File ]}.

(** A system on which [~/.config] is a regular file. *)
Definition dot_config_file_os : OS :=
  mkOS {["HOME" := "/home/user"]} None
    {[ ["/"] := Dir; ["/"; "home"] := Dir; ["/"; "home"; "user"] := Dir;
       ["/"; "home"; "user"; ".config"] := File ]}.

End ExtraSamples.

(** * Properties *)

(** Unfolds the monad so that a run of a method computes. *)
Ltac run_py :=
  unfold mbind, mret, Py.M_bind, Py.M_ret, Py.raise, Py.setattr, Py.getattr,
    Py.log_error, Py.log_warning in *; simpl in *.

(** ** The plugin prototype *)

Module PluginPrototypeProps.
Import Py PluginPrototype Samples.

Section Props.

Variable is_valid_variable_name : string -> bool.

Local Abbreviation construct := (construct is_valid_variable_name).

(** A run of [update_nuisance_parameters], computed. *)
Lemma update_nuisance_parameters_run (v : PyVal) (w : World) :
  update_nuisance_parameters v w =
  if isinstance_dict v
  then (Ok tt, mkWorld (<["_nuisance_parameters" := v]> (self w)) (log w))
  else (Raise (mkExc AssertionError not_a_dict_msg),
        mkWorld (self w) (log w ++ [(ERROR, not_a_dict_msg)])).
Proof.
  unfold update_nuisance_parameters. run_py.
  destruct (isinstance_dict v); reflexivity.
Qed.

(** C5.  [update_nuisance_parameters(v)] raises an [AssertionError] when [v]
    is not a dict, be it another kind of mapping or no mapping at all; when
    it is a dict the call succeeds and the [nuisance_parameters] property
    then returns exactly [v], whatever map was stored before. *)
Theorem update_nuisance_parameters_replaces (v : PyVal) (w : World) :
  if isinstance_dict v
  then exists w', update_nuisance_parameters v w = (Ok tt, w')
                  /\ nuisance_parameters w' = (Ok v, w')
  else exists e w', update_nuisance_parameters v w = (Raise e, w')
                    /\ exc_class e = AssertionError.
Proof.
  rewrite update_nuisance_parameters_run.
  destruct (isinstance_dict v).
  - eexists; split; [reflexivity|].
    unfold nuisance_parameters, getattr; simpl.
    by rewrite lookup_insert_eq.
  - by do 2 eexists.
Qed.

(** C9.  On a non-dict argument [update_nuisance_parameters] raises before it
    assigns: the instance is as it was, and [nuisance_parameters] still
    returns the map stored before. *)
Theorem update_nuisance_parameters_atomic (v : PyVal) (w : World) :
  isinstance_dict v = false ->
  exists e w', update_nuisance_parameters v w = (Raise e, w')
    /\ exc_class e = AssertionError
    /\ self w' = self w
    /\ forall old, nuisance_parameters w = (Ok old, w) ->
                   nuisance_parameters w' = (Ok old, w').
Proof.
  intros Hv. rewrite update_nuisance_parameters_run, Hv.
  do 2 eexists; repeat split; try reflexivity.
  intros old. unfold nuisance_parameters, getattr; simpl.
  destruct (self w !! "_nuisance_parameters"); [|discriminate].
  by intros [= ->].
Qed.

(** A run of the constructor, computed. *)
Lemma construct_run (name : string) (np : PyVal)
    (l : list (LogLevel * string)) :
  construct name np l =
  if negb (is_valid_variable_name name) then
    (Raise (mkExc AssertionError (invalid_name_msg name)),
     mkWorld ∅ (l ++ [(ERROR, invalid_name_msg name)]))
  else if String.eqb (lower name) "total" then
    (Raise (mkExc AssertionError total_msg),
     mkWorld ∅ (l ++ [(ERROR, total_msg)]))
  else if negb (isinstance_dict np) then
    (Raise (mkExc AssertionError not_a_dict_msg),
     mkWorld {["_name" := VStr name]} (l ++ [(ERROR, not_a_dict_msg)]))
  else
    (Ok tt,
     mkWorld (<["_tag" := VNone]>
                (<["_nuisance_parameters" := np]> {["_name" := VStr name]}))
             l).
Proof.
  unfold PluginPrototype.construct, __init__, invalid_plugin_name. run_py.
  destruct (is_valid_variable_name name); simpl; [|reflexivity].
  destruct (String.eqb (lower name) "total"); simpl; [reflexivity|].
  destruct (isinstance_dict np); reflexivity.
Qed.

(** Whatever the constructor raises is an [AssertionError]. *)
Lemma construct_raises_AssertionError name np l e w' :
  construct name np l = (Raise e, w') -> exc_class e = AssertionError.
Proof.
  rewrite construct_run.
  repeat match goal with |- context [if ?b then _ else _] => destruct b end;
    by intros [= <- <-].
Qed.

(** C6.  The name ["total"] and a non-dict [nuisance_parameters] each make
    the constructor raise an [AssertionError]; after a construction that
    succeeds the [name] property returns the name given. *)
Theorem construct_validates (name : string) (np : PyVal)
    (l : list (LogLevel * string)) :
  (exists e w', construct "total" np l = (Raise e, w')
                /\ exc_class e = AssertionError)
  /\ (isinstance_dict np = false ->
      exists e w', construct name np l = (Raise e, w')
                   /\ exc_class e = AssertionError)
  /\ (forall w', construct name np l = (Ok tt, w') ->
                 PluginPrototype.name w' = (Ok (VStr name), w')).
Proof.
  split; [|split].
  - destruct (construct "total" np l) as [[[]|e] w'] eqn:E.
    + rewrite construct_run in E. simpl in E.
      destruct (is_valid_variable_name "total"); discriminate.
    + exists e, w'. eauto using construct_raises_AssertionError.
  - intros Hnp. destruct (construct name np l) as [[[]|e] w'] eqn:E.
    + rewrite construct_run, Hnp in E.
      destruct (is_valid_variable_name name); [|discriminate].
      destruct (String.eqb (lower name) "total"); discriminate.
    + exists e, w'. eauto using construct_raises_AssertionError.
  - intros w'. rewrite construct_run.
    repeat match goal with |- context [if ?b then _ else _] => destruct b end;
      intros E; inversion E; subst w'.
    unfold PluginPrototype.name, getattr; simpl.
    rewrite lookup_insert_ne, lookup_insert_ne, lookup_singleton_eq; done.
Qed.

(** C8.  The reserved-name test ignores case: every name whose lower-case
    form is ["total"] makes the constructor raise an [AssertionError]. *)
Theorem construct_total_any_case (name : string) (np : PyVal)
    (l : list (LogLevel * string)) :
  lower name = "total" ->
  exists e w', construct name np l = (Raise e, w')
               /\ exc_class e = AssertionError.
Proof.
  intros Hname. destruct (construct name np l) as [[[]|e] w'] eqn:E.
  - rewrite construct_run, Hname in E. simpl in E.
    destruct (is_valid_variable_name name); discriminate.
  - exists e, w'. eauto using construct_raises_AssertionError.
Qed.

(** A run of the [tag] setter, computed from the length of [spec] and the
    items it yields. *)
Lemma _set_tag_run (spec : PyVal) (w : World) :
  _set_tag spec w =
  match py_len spec, py_iter spec with
  | Some 2%nat, [iv; start] =>
      (Ok tt,
       mkWorld (<["_tag" := VTuple [iv; start; VNone]]> (self w))
               (if isinstance_IndependentVariable iv then log w
                else log w ++ [(WARNING, tag_warning iv)]))
  | Some 3%nat, [iv; start; end_] =>
      (Ok tt,
       mkWorld (<["_tag" := VTuple [iv; start; end_]]> (self w))
               (if isinstance_IndependentVariable iv then log w
                else log w ++ [(WARNING, tag_warning iv)]))
  | Some 2%nat, _ | Some 3%nat, _ =>
      (Raise (mkExc ValueError "wrong number of values to unpack"), w)
  | Some _, _ => (Raise (mkExc ValueError tag_spec_msg), w)
  | None, _ =>
      (Raise (mkExc TypeError
                ("object of type " +:+ type_repr spec +:+ " has no len()")), w)
  end.
Proof.
  unfold _set_tag. destruct (py_len spec) as [[|[|[|[|n]]]]|]; try reflexivity.
  - destruct (py_iter spec) as [|iv [|start [|x xs]]]; try reflexivity.
    run_py. destruct (isinstance_IndependentVariable iv); reflexivity.
  - destruct (py_iter spec) as [|iv [|start [|end_ [|x xs]]]]; try reflexivity.
    run_py. destruct (isinstance_IndependentVariable iv); reflexivity.
Qed.

(** C7.  Setting [tag] to a pair [(independent_variable, start)] or a triple
    [(independent_variable, start, end)] succeeds, and [tag] then reads as the
    triple of those values ([None] for a missing end); a spec of any other
    length, or without one, raises and leaves the instance, and so the tag,
    as it was. *)
Theorem tag_set_then_get (w : World) :
  (forall iv start, exists w',
      _set_tag (VTuple [iv; start]) w = (Ok tt, w')
      /\ _get_tag w' = (Ok (VTuple [iv; start; VNone]), w'))
  /\ (forall iv start end_, exists w',
      _set_tag (VTuple [iv; start; end_]) w = (Ok tt, w')
      /\ _get_tag w' = (Ok (VTuple [iv; start; end_]), w'))
  /\ (forall spec, py_len spec <> Some 2%nat -> py_len spec <> Some 3%nat ->
      exists e, _set_tag spec w = (Raise e, w)
                /\ (exc_class e = ValueError \/ exc_class e = TypeError)).
Proof.
  split; [|split].
  - intros iv start. rewrite _set_tag_run. simpl.
    eexists; split; [reflexivity|].
    unfold _get_tag, getattr; simpl. by rewrite lookup_insert_eq.
  - intros iv start end_. rewrite _set_tag_run. simpl.
    eexists; split; [reflexivity|].
    unfold _get_tag, getattr; simpl. by rewrite lookup_insert_eq.
  - intros spec H2 H3. rewrite _set_tag_run.
    destruct (py_len spec) as [[|[|[|[|n]]]]|]; try congruence;
      eexists; (split; [reflexivity|]); simpl; auto.
Qed.

End Props.

(** C5 with "mapping" for "dict" does not hold: a [MappingProxyType] is a
    mapping, yet [update_nuisance_parameters] refuses it with an
    [AssertionError] and leaves the stored map in place. *)
Lemma update_nuisance_parameters_mapping_counterexample :
  is_mapping sample_proxy = true
  /\ (exists e w',
        update_nuisance_parameters sample_proxy sample_world = (Raise e, w')
        /\ exc_class e = AssertionError
        /\ nuisance_parameters w' = (Ok sample_map, w'))
  /\ ~ (exists w',
          update_nuisance_parameters sample_proxy sample_world = (Ok tt, w')
          /\ nuisance_parameters w' = (Ok sample_proxy, w')).
Proof.
  split; [reflexivity|]. split.
  - do 2 eexists. split; [reflexivity|]. split; reflexivity.
  - intros (w' & H & _). discriminate H.
Qed.

(** *** The theorems at concrete inputs *)

Lemma update_nuisance_parameters_atomic_witness :
  isinstance_dict (VInt 3) = false
  /\ exists e w',
       update_nuisance_parameters (VInt 3) sample_world = (Raise e, w')
       /\ exc_class e = AssertionError
       /\ self w' = self sample_world
       /\ forall old, nuisance_parameters sample_world = (Ok old, sample_world)
                      -> nuisance_parameters w' = (Ok old, w').
Proof.
  split; [reflexivity|].
  apply (update_nuisance_parameters_atomic (VInt 3) sample_world).
  reflexivity.
Defined.

Lemma construct_validates_witness :
  (isinstance_dict VNone = false
   /\ exists e w',
        construct (fun _ => true) "NAI3" VNone [] = (Raise e, w')
        /\ exc_class e = AssertionError)
  /\ exists w',
       construct (fun _ => true) "NAI3" sample_map [] = (Ok tt, w')
       /\ name w' = (Ok (VStr "NAI3"), w').
Proof.
  split.
  - split; [reflexivity|].
    apply (construct_validates (fun _ => true) "NAI3" VNone []).
    reflexivity.
  - eexists. split; [reflexivity|].
    apply (construct_validates (fun _ => true) "NAI3" sample_map []).
    reflexivity.
Defined.

Lemma construct_total_any_case_witness :
  lower "Total" = "total"
  /\ exists e w',
       construct (fun _ => true) "Total" sample_map [] = (Raise e, w')
       /\ exc_class e = AssertionError.
Proof.
  split; [reflexivity|].
  apply (construct_total_any_case (fun _ => true) "Total" sample_map []).
  reflexivity.
Defined.

Lemma tag_set_then_get_witness :
  (py_len (VTuple [VInt 1]) <> Some 2%nat
   /\ py_len (VTuple [VInt 1]) <> Some 3%nat)
  /\ exists e,
       _set_tag (VTuple [VInt 1]) sample_world = (Raise e, sample_world)
       /\ (exc_class e = ValueError \/ exc_class e = TypeError).
Proof.
  split; [split; simpl; congruence|].
  apply (tag_set_then_get sample_world); simpl; congruence.
Defined.

End PluginPrototypeProps.

(** ** The package data paths *)

Module PackageDataProps.
Import Py PackageData Samples.

Lemma joinpath_default (home : Path) :
  joinpath (joinpath home ".config") "threeML" = default_config_path home.
Proof.
  unfold default_config_path.
  change (joinpath (joinpath home ".config") "threeML")
    with ((home ++ [".config"]) ++ ["threeML"])%list.
  by rewrite <- app_assoc.
Qed.

Lemma parent_snoc (l : Path) (a : string) :
  l <> [] -> parent (l ++ [a])%list = l.
Proof.
  intros Hl. transitivity (removelast (l ++ [a])%list).
  - destruct l as [|x [|y l]]; [done|reflexivity|reflexivity].
  - apply removelast_last.
Qed.

Lemma parent_default (home : Path) :
  parent (default_config_path home) = (home ++ [".config"])%list.
Proof.
  unfold default_config_path.
  change [".config"; "threeML"] with ([".config"] ++ ["threeML"])%list.
  rewrite app_assoc. apply parent_snoc. by destruct home.
Qed.

Lemma parent_dot_config (home : Path) :
  parent (home ++ [".config"])%list = home.
Proof.
  destruct home as [|x l]; [reflexivity|]. by apply parent_snoc.
Qed.

Lemma default_ne_parent (home : Path) :
  default_config_path home <> (home ++ [".config"])%list.
Proof.
  unfold default_config_path. intros E.
  apply (f_equal length) in E. rewrite !length_app in E. simpl in E. lia.
Qed.

(** The value of [THREEML_CONFIG] never reaches the result. *)
Lemma get_path_of_user_config_custom_dead (custom : option string) (os : OS) :
  get_path_of_user_config custom os = get_path_of_user_config None os.
Proof. reflexivity. Qed.

(** [HOME] is read from the same environment, which setting
    [THREEML_CONFIG] leaves alone. *)
Lemma Path_home_with_THREEML_CONFIG (v : option string) (os : OS) :
  Path_home (with_THREEML_CONFIG v os) =
  (fst (Path_home os), with_THREEML_CONFIG v os).
Proof.
  unfold Path_home, with_THREEML_CONFIG; simpl.
  assert (forall env : gmap string string,
            match v with
            | Some s => <["THREEML_CONFIG" := s]> env
            | None => delete "THREEML_CONFIG" env
            end !! "HOME" = env !! "HOME") as ->.
  { intros env. destruct v.
    - by rewrite lookup_insert_ne.
    - by rewrite lookup_delete_ne. }
  destruct (environ os !! "HOME"); [reflexivity|].
  destruct (passwd_home os); reflexivity.
Qed.

(** [mkdir] below an existing directory makes the directory at once. *)
Lemma mkdir_fuel_below_dir fuel (p : Path) parents exist_ok (os : OS) :
  fs os !! p = None ->
  fs os !! parent p = Some Dir ->
  mkdir_fuel fuel p parents exist_ok os =
  (Ok tt, mkOS (environ os) (passwd_home os) (<[p := Dir]> (fs os))).
Proof.
  intros Hp Hpar. destruct fuel; simpl; unfold os_mkdir; by rewrite Hp, Hpar.
Qed.

(** Where the parent is missing too and no regular file is in the way,
    [mkdir(parents=True)] makes the parent and then the directory. *)
Lemma mkdir_fuel_missing_parent fuel (p : Path) exist_ok (os : OS) :
  fs os !! p = None ->
  fs os !! parent p = None ->
  nearest_is_file (length p) (parent p) (fs os) = false ->
  parent p <> p ->
  mkdir_fuel (S fuel) p true exist_ok os =
  (mkdir_fuel fuel (parent p) true true ;;
   mkdir_fuel fuel p false exist_ok) os.
Proof.
  intros Hp Hpar Hfile Hne. cbn [mkdir_fuel]. unfold os_mkdir at 1.
  rewrite Hp, Hpar, Hfile. cbn [exc_class negb orb].
  by rewrite bool_decide_eq_false_2.
Qed.

(** Below an existing directory no regular file is in the way. *)
Lemma nearest_is_file_below_dir (fuel : nat) (p : Path)
    (files : gmap (list string) Node) :
  files !! p = None ->
  files !! parent p = Some Dir ->
  parent p <> p ->
  nearest_is_file (S fuel) p files = false.
Proof.
  intros Hp Hpar Hne. cbn [nearest_is_file].
  rewrite Hp, bool_decide_eq_false_2 by done.
  destruct fuel; cbn [nearest_is_file]; by rewrite Hpar.
Qed.

(** Without [parents] there is no recursion, whatever the fuel. *)
Lemma mkdir_fuel_no_parents fuel1 fuel2 (p : Path) exist_ok (os : OS) :
  mkdir_fuel fuel1 p false exist_ok os = mkdir_fuel fuel2 p false exist_ok os.
Proof. by destruct fuel1, fuel2. Qed.

Lemma parent_length (p : Path) :
  parent p <> p -> length p = S (length (parent p)).
Proof.
  destruct p as [|x [|y l]]; [done| |].
  - simpl. by destruct (_ || _).
  - intros _. change (parent (x :: y :: l)) with (removelast (x :: y :: l)).
    destruct (exists_last (l := x :: y :: l) ltac:(discriminate))
      as (l' & a & ->).
    rewrite removelast_last, length_app. simpl. lia.
Qed.

(** The recursion follows [parent]: fuel beyond the number of parts is not
    used. *)
Lemma mkdir_fuel_enough fuel1 fuel2 (p : Path) parents exist_ok (os : OS) :
  length p <= fuel1 -> length p <= fuel2 ->
  mkdir_fuel fuel1 p parents exist_ok os
  = mkdir_fuel fuel2 p parents exist_ok os.
Proof.
  revert fuel2 p parents exist_ok os.
  induction fuel1 as [|fuel1 IH]; intros fuel2 p parents exist_ok os H1 H2;
    destruct fuel2 as [|fuel2]; cbn [mkdir_fuel]; try reflexivity;
    (destruct (os_mkdir p os) as [[[]|e] os']; [reflexivity|]);
    destruct (exc_class e); try reflexivity;
    (destruct parents; [|reflexivity]); cbn [negb orb];
    (case_bool_decide as Hp; [reflexivity|]);
    apply parent_length in Hp; try lia.
  unfold mbind, M_bind. rewrite (IH fuel2 (parent p)) by lia.
  destruct (mkdir_fuel fuel2 (parent p) true true os') as [[[]|e'] os''];
    [|reflexivity].
  apply mkdir_fuel_no_parents.
Qed.

(** [mkdir(parents=True)] of the default path succeeds below an existing
    home directory. *)
Lemma mkdir_default_ok (home : Path) (os : OS) :
  fs os !! default_config_path home = None ->
  fs os !! home = Some Dir ->
  fs os !! (home ++ [".config"])%list <> Some File ->
  exists os', mkdir (default_config_path home) true false os = (Ok tt, os').
Proof.
  intros Hc Hh Hp. unfold mkdir.
  destruct (fs os !! (home ++ [".config"])%list) as [[]|] eqn:Ep;
    [|congruence|].
  - rewrite mkdir_fuel_below_dir; [by eexists|done|].
    by rewrite parent_default.
  - assert (home ++ [".config"] <> home)%list as Hne.
    { intros E%(f_equal length). rewrite length_app in E. simpl in E. lia. }
    assert (nearest_is_file (length (default_config_path home))
              (home ++ [".config"])%list (fs os) = false) as Hfile.
    { unfold default_config_path. rewrite length_app. simpl.
      replace (length home + 2) with (S (S (length home))) by lia.
      apply nearest_is_file_below_dir; by rewrite ?parent_dot_config. }
    rewrite mkdir_fuel_missing_parent; rewrite ?parent_default; try done;
      [|apply not_eq_sym, default_ne_parent].
    unfold mbind, M_bind.
    rewrite mkdir_fuel_below_dir; [|done|by rewrite parent_dot_config].
    rewrite mkdir_fuel_below_dir; [by eexists| |]; cbn [fs].
    + by rewrite lookup_insert_ne by (apply not_eq_sym, default_ne_parent).
    + by rewrite parent_default, lookup_insert_eq.
Qed.

(** C10.  Whatever [THREEML_CONFIG] holds, set or unset, importing the module
    and calling [get_path_of_user_config()] returns [home/.config/threeML]:
    the path read from the environment is overwritten before it is used.
    (The call returns when that directory exists or can be made below an
    existing home directory.) *)
Theorem get_path_of_user_config_default (v : option string) (os : OS)
    (home : Path) :
  Path_home os = (Ok home, os) ->
  is_Some (fs os !! default_config_path home)
  \/ (fs os !! home = Some Dir
      /\ fs os !! (home ++ [".config"])%list <> Some File) ->
  exists os',
    import_and_get_path_of_user_config (with_THREEML_CONFIG v os)
    = (Ok (default_config_path home), os').
Proof.
  intros Hhome Hfs.
  unfold import_and_get_path_of_user_config.
  rewrite get_path_of_user_config_custom_dead.
  unfold get_path_of_user_config, mbind, M_bind.
  rewrite Path_home_with_THREEML_CONFIG, Hhome. cbn [fst].
  rewrite joinpath_default. unfold path_exists.
  destruct (fs os !! default_config_path home) as [n|] eqn:Ec.
  - rewrite bool_decide_eq_true_2 by (simpl; rewrite Ec; eauto).
    simpl. by eexists.
  - rewrite bool_decide_eq_false_2
      by (simpl; rewrite Ec; intros [? ?]; discriminate).
    cbn [negb]. destruct Hfs as [[? ?]|[Hh Hp]]; [discriminate|].
    destruct (mkdir_default_ok home (with_THREEML_CONFIG v os)) as [os' ->];
      try assumption.
    by eexists.
Qed.

Lemma get_path_of_user_config_default_witness :
  Path_home sample_os = (Ok ["/"; "home"; "user"], sample_os)
  /\ (fs sample_os !! ["/"; "home"; "user"] = Some Dir
      /\ fs sample_os !! ["/"; "home"; "user"; ".config"] <> Some File)
  /\ exists os',
       import_and_get_path_of_user_config
         (with_THREEML_CONFIG (Some "/tmp/custom") sample_os)
       = (Ok ["/"; "home"; "user"; ".config"; "threeML"], os').
Proof.
  split; [reflexivity|]. split; [split; [reflexivity|discriminate]|].
  apply (get_path_of_user_config_default (Some "/tmp/custom") sample_os
           ["/"; "home"; "user"]).
  - reflexivity.
  - right. split; [reflexivity|discriminate].
Defined.

End PackageDataProps.

(** ** The time binner *)

Module BinnerProps.
Import Py Binner Samples.
Local Open Scope Q_scope.

(** *** Rationals: division, floor and ceiling against integers *)

Lemma Qlt_div_iff (a b c : Q) : 0 < c -> (a < b / c <-> a * c < b).
Proof.
  intros Hc. split; intros H.
  - rewrite <- (Qmult_lt_r _ _ c) in H by assumption.
    unfold Qdiv in H. rewrite <- Qmult_assoc, (Qmult_comm (/ c)) in H.
    rewrite Qmult_inv_r, Qmult_1_r in H; [assumption|lra].
  - by apply Qlt_shift_div_l.
Qed.

Lemma Qle_div_iff (a b c : Q) : 0 < c -> (a <= b / c <-> a * c <= b).
Proof.
  intros Hc. split; intros H.
  - rewrite <- (Qmult_le_r _ _ c) in H by assumption.
    unfold Qdiv in H. rewrite <- Qmult_assoc, (Qmult_comm (/ c)) in H.
    rewrite Qmult_inv_r, Qmult_1_r in H; [assumption|lra].
  - by apply Qle_shift_div_l.
Qed.

Lemma Qle_floor_iff (z : Z) (x : Q) : inject_Z z <= x <-> (z <= Qfloor x)%Z.
Proof.
  split; intros H.
  - rewrite <- (Qfloor_Z z). by apply Qfloor_resp_le.
  - apply Qle_trans with (inject_Z (Qfloor x)); [|apply Qfloor_le].
    by rewrite <- Zle_Qle.
Qed.

Lemma Qlt_ceiling_iff (z : Z) (x : Q) : inject_Z z < x <-> (z < Qceiling x)%Z.
Proof.
  split; intros H.
  - destruct (Z_lt_le_dec z (Qceiling x)) as [|Hle]; [assumption|].
    exfalso. apply (Qlt_irrefl x).
    apply Qle_lt_trans with (inject_Z z); [|assumption].
    apply Qle_trans with (inject_Z (Qceiling x)); [apply Qle_ceiling|].
    by rewrite <- Zle_Qle.
  - apply Qle_lt_trans with (inject_Z (Qceiling x - 1)); [|apply Qceiling_lt].
    rewrite <- Zle_Qle. lia.
Qed.

Lemma inject_Z_S (k : nat) :
  inject_Z (Z.of_nat (S k)) == inject_Z (Z.of_nat k) + 1.
Proof. rewrite Nat2Z.inj_succ. unfold Z.succ. by rewrite inject_Z_plus. Qed.

Lemma Qlt_bool_iff (x y : Q) : Qlt_bool x y = true <-> x < y.
Proof.
  unfold Qlt_bool. rewrite negb_true_iff, <- not_true_iff_false, Qle_bool_iff.
  split; [apply Qnot_le_lt|apply Qlt_not_le].
Qed.

(** *** Fixed width *)

(** Names the minimum and the two grid indices, so that what is left is
    arithmetic over rational variables. *)
Ltac abstract_atoms k :=
  set (mn := Qmin _ _) in *;
  set (a := inject_Z (Z.of_nat (S k))) in *;
  set (b := inject_Z (Z.of_nat k)) in *.

Section Constant.

Variables start stop dt : Q.
Hypothesis dt_pos : 0 < dt.

Local Abbreviation x := ((stop - start) / dt).

(** The [k]-th bin begins before [stop] exactly when [k < ⌈(stop−start)/dt⌉]. *)
Lemma begins_before_stop (k : nat) :
  start + inject_Z (Z.of_nat k) * dt < stop <-> (k < Z.to_nat (Qceiling x))%nat.
Proof.
  transitivity (inject_Z (Z.of_nat k) * dt < stop - start); [split; lra|].
  rewrite <- (Qlt_div_iff _ _ _ dt_pos), Qlt_ceiling_iff. lia.
Qed.

(** The [k]-th bin is complete exactly when [k < ⌊(stop−start)/dt⌋]. *)
Lemma complete_iff (k : nat) :
  is_complete dt (candidate_bin start stop dt k) = true
  <-> (k < Z.to_nat (Qfloor x))%nat.
Proof.
  unfold is_complete, candidate_bin; cbn [bin_start bin_stop].
  rewrite Qle_bool_iff.
  transitivity (inject_Z (Z.of_nat (S k)) * dt <= stop - start).
  - pose proof (inject_Z_S k) as HS.
    destruct (Q.min_spec (start + inject_Z (Z.of_nat (S k)) * dt) stop)
      as [[Hlt Heq]|[Hle Heq]]; split; intros; abstract_atoms k; nra.
  - rewrite <- (Qle_div_iff _ _ _ dt_pos), Qle_floor_iff. lia.
Qed.

(** A complete bin ends one [dt] after it begins, and not after [stop]. *)
Lemma complete_stop (k : nat) :
  (k < Z.to_nat (Qfloor x))%nat ->
  bin_stop (candidate_bin start stop dt k)
    == bin_start (candidate_bin start stop dt k) + dt
  /\ bin_stop (candidate_bin start stop dt k) <= stop.
Proof.
  intros Hk. apply complete_iff in Hk.
  unfold is_complete, candidate_bin in *; cbn [bin_start bin_stop] in *.
  rewrite Qle_bool_iff in Hk.
  pose proof (inject_Z_S k) as HS.
  destruct (Q.min_spec (start + inject_Z (Z.of_nat (S k)) * dt) stop)
    as [[Hlt Heq]|[Hle Heq]]; split; abstract_atoms k; nra.
Qed.

(** While bins begin before [stop] the loop emits them one by one. *)
Lemma clipped_bins_seq (fuel k : nat) :
  (k + fuel <= Z.to_nat (Qceiling x))%nat ->
  clipped_bins fuel k start stop dt
  = candidate_bin start stop dt <$> seq k fuel.
Proof.
  revert k. induction fuel as [|fuel IH]; intros k Hk; [reflexivity|].
  simpl. rewrite (proj2 (Qlt_bool_iff _ _))
    by (apply begins_before_stop; lia).
  f_equal. apply IH. lia.
Qed.

(** The loop ends by its own test: fuel beyond [⌈(stop−start)/dt⌉] is not
    used. *)
Lemma clipped_bins_fuel_enough (extra : nat) :
  clipped_bins (Z.to_nat (Qceiling x) + extra) 0 start stop dt
  = clipped_bins (Z.to_nat (Qceiling x)) 0 start stop dt.
Proof.
  assert (forall fuel k, (k + fuel = Z.to_nat (Qceiling x))%nat ->
            clipped_bins (fuel + extra) k start stop dt
            = clipped_bins fuel k start stop dt) as H.
  { induction fuel as [|fuel IH]; intros k Hk.
    - destruct extra as [|extra]; [reflexivity|]. simpl.
      destruct (Qlt_bool (start + inject_Z (Z.of_nat k) * dt) stop) eqn:E;
        [|reflexivity].
      apply Qlt_bool_iff, begins_before_stop in E. lia.
    - simpl.
      destruct (Qlt_bool (start + inject_Z (Z.of_nat k) * dt) stop);
        [|reflexivity].
      f_equal. apply IH. lia. }
  apply H. lia.
Qed.

End Constant.

Lemma filter_fmap {A B} (f : B -> bool) (g : A -> B) (l : list A) :
  List.filter f (g <$> l) = g <$> List.filter (fun a => f (g a)) l.
Proof.
  induction l as [|a l IH]; [reflexivity|].
  simpl. destruct (f (g a)); simpl; [f_equal|]; exact IH.
Qed.

Lemma filter_seq_lt (n a len : nat) :
  List.filter (fun k => (k <? n)%nat) (seq a len) = seq a (min len (n - a)).
Proof.
  revert a. induction len as [|len IH]; intros a; [reflexivity|].
  simpl. rewrite IH. destruct (Nat.ltb_spec a n).
  - replace (n - a)%nat with (S (n - S a)) by lia. reflexivity.
  - replace (n - a)%nat with 0%nat by lia.
    replace (n - S a)%nat with 0%nat by lia.
    by rewrite Nat.min_0_r.
Qed.

(** The fixed-width binner yields the first [⌊(stop−start)/dt⌋] bins of the
    grid. *)
Lemma bin_by_constant_grid (start stop dt : Q) :
  0 < dt ->
  bin_by_constant start stop dt
  = candidate_bin start stop dt
      <$> seq 0 (Z.to_nat (Qfloor ((stop - start) / dt))).
Proof.
  intros Hdt. unfold bin_by_constant.
  rewrite clipped_bins_seq by (assumption || lia).
  rewrite filter_fmap.
  rewrite (filter_ext_in _
             (fun k => (k <? Z.to_nat (Qfloor ((stop - start) / dt)))%nat)).
  - rewrite filter_seq_lt. do 2 f_equal.
    pose proof (Qle_floor_ceiling ((stop - start) / dt)) as Hfc.
    rewrite <- Zle_Qle in Hfc. lia.
  - intros k _. apply eq_true_iff_eq.
    rewrite (complete_iff _ _ _ Hdt). symmetry. apply Nat.ltb_lt.
Qed.

Lemma lookup_grid (start stop dt : Q) (n i : nat) (b : Bin) :
  (candidate_bin start stop dt <$> seq 0 n) !! i = Some b ->
  b = candidate_bin start stop dt i /\ (i < n)%nat.
Proof.
  rewrite list_lookup_fmap. intros H.
  destruct (seq 0 n !! i) as [k|] eqn:E; [|discriminate].
  apply lookup_seq in E as [-> ?]. simpl in H. by inversion H.
Qed.


(** *** Bins from increasing edges *)

Section Sorted.

Context {A : Type} (R : relation A).



End Sorted.





Section Calls.

Variable significance : nat -> Q -> Q.
Variable block_fitness : nat -> Q -> Q.
Variable ncp_prior : Q -> Q.

(** *** Significance-adaptive *)



(** *** Bayesian blocks *)

(** The last changepoint chosen for edge [R] lies before [R]. *)
Lemma best_split_lt (ts best : list Q) (p0 : Q) (R : nat) :
  (1 <= R)%nat ->
  (snd (best_split block_fitness ncp_prior ts best p0 R) < R)%nat.
Proof.
  intros HR. unfold best_split.
  assert (forall l acc,
            (snd acc < R)%nat -> Forall (fun r => (r < R)%nat) l ->
            (snd (fold_left
                    (fun (acc : Q * nat) r =>
                       if Qlt_bool (fst acc)
                            (score block_fitness ncp_prior ts best p0 R r)
                       then (score block_fitness ncp_prior ts best p0 R r, r)
                       else acc) l acc) < R)%nat) as H.
  { induction l as [|r l IH]; intros acc Hacc Hl; [assumption|].
    apply Forall_cons in Hl as [Hr Hl]. simpl. apply IH; [|assumption].
    by destruct (Qlt_bool _ _). }
  apply H; [simpl; lia|]. apply Forall_seq. intros; lia.
Qed.

Lemma fill_length (ts : list Q) (p0 : Q) (n : nat) :
  length (snd (fill block_fitness ncp_prior ts p0 n)) = S n.
Proof.
  induction n as [|n IH]; [reflexivity|]. simpl.
  destruct (fill _ _ ts p0 n) as [best last].
  destruct (best_split _ _ ts best p0 (S n)) as [v r]. simpl in *.
  rewrite length_app, IH. simpl. lia.
Qed.

(** Every entry of the table of last changepoints points to an earlier
    edge. *)
Lemma fill_last_lt (ts : list Q) (p0 : Q) (n r : nat) :
  (1 <= r)%nat ->
  (nth r (snd (fill block_fitness ncp_prior ts p0 n)) 0 < r)%nat.
Proof.
  intros Hr. induction n as [|n IH].
  - destruct r as [|[|r]]; simpl; lia.
  - pose proof (fill_length ts p0 n) as Hlen. simpl.
    destruct (fill _ _ ts p0 n) as [best last].
    pose proof (best_split_lt ts best p0 (S n) ltac:(lia)) as Hsplit.
    destruct (best_split _ _ ts best p0 (S n)) as [v r0]. simpl in *.
    destruct (Nat.lt_trichotomy r (length last)) as [Hlt|[Heq|Hgt]].
    + by rewrite app_nth1.
    + rewrite app_nth2 by lia. replace (r - length last)%nat with 0%nat by lia.
      simpl. lia.
    + rewrite nth_overflow; [lia|]. rewrite length_app. simpl. lia.
Qed.


(** The walk reaches edge [0] within [R] steps: fuel beyond that is not
    used. *)
Lemma backtrack_fuel_enough (last : list nat) :
  (forall r, (1 <= r)%nat -> (nth r last 0 < r)%nat) ->
  forall fuel extra R acc,
    (R <= fuel)%nat ->
    backtrack last (fuel + extra) R acc = backtrack last fuel R acc.
Proof.
  intros Hlast. induction fuel as [|fuel IH]; intros extra R acc HR.
  - replace R with 0%nat by lia. by destruct extra.
  - destruct R as [|R]; [reflexivity|]. simpl.
    pose proof (Hlast (S R) ltac:(lia)). apply IH. lia.
Qed.

Lemma change_points_fuel_enough (ts : list Q) (p0 : Q) (extra : nat) :
  backtrack (snd (fill block_fitness ncp_prior ts p0 (length ts - 1)))
            (length ts + extra) (length ts - 1) []
  = change_points block_fitness ncp_prior ts p0.
Proof.
  apply backtrack_fuel_enough; [intros; by apply fill_last_lt|lia].
Qed.


Local Abbreviation create_time_bins :=
  (create_time_bins significance block_fitness ncp_prior).

(** A [constant] call with a positive [dt] caches the fixed-width bins. *)
Lemma create_time_bins_constant_run (start stop dt : Q) (st : TTE) :
  0 < dt ->
  create_time_bins start stop "constant" {["dt" := dt]} st
  = (Ok tt, mkTTE (events st) (background st)
                  (Some (bin_by_constant start stop dt))).
Proof.
  intros Hdt. unfold Binner.create_time_bins, validate, mbind, M_bind.
  cbn [required_parameter String.eqb Ascii.eqb Bool.eqb].
  rewrite lookup_singleton_eq, dom_singleton_L.
  rewrite bool_decide_eq_true_2 by set_solver.
  unfold valid_value. cbn [String.eqb Ascii.eqb Bool.eqb negb].
  rewrite (proj2 (Qlt_bool_iff 0 dt) Hdt). reflexivity.
Qed.

(** C1.  With [dt > 0] and [start ≤ stop], a [constant] call succeeds and
    caches exactly [⌊(stop−start)/dt⌋] bins; each has width [dt], begins
    before it ends and lies within [[start, stop]]; each begins where the one
    before ends; the first begins no earlier than [start], the last ends no
    later than [stop], and what is left after the last bin is shorter than
    [dt]. *)
Theorem constant_bins (start stop dt : Q) (st : TTE) :
  0 < dt -> start <= stop ->
  exists bs,
    create_time_bins start stop "constant" {["dt" := dt]} st
    = (Ok tt, mkTTE (events st) (background st) (Some bs))
    /\ Z.of_nat (length bs) = Qfloor ((stop - start) / dt)
    /\ (forall i b, bs !! i = Some b ->
          bin_stop b - bin_start b == dt /\ bin_start b < bin_stop b
          /\ start <= bin_start b /\ bin_stop b <= stop)
    /\ (forall i b b', bs !! i = Some b -> bs !! S i = Some b' ->
          bin_stop b == bin_start b')
    /\ (forall b, head bs = Some b -> start <= bin_start b)
    /\ (forall b, last bs = Some b -> bin_stop b <= stop)
    /\ stop - (start + inject_Z (Z.of_nat (length bs)) * dt) < dt.
Proof.
  intros Hdt Hle. exists (bin_by_constant start stop dt).
  split; [by apply create_time_bins_constant_run|].
  rewrite (bin_by_constant_grid _ _ _ Hdt).
  set (n := Z.to_nat (Qfloor ((stop - start) / dt))).
  assert (0 <= Qfloor ((stop - start) / dt))%Z as Hn.
  { apply Qle_floor_iff, Qle_div_iff; [assumption|].
    change (inject_Z 0) with 0. lra. }
  assert (forall i b,
            (candidate_bin start stop dt <$> seq 0 n) !! i = Some b ->
            bin_stop b - bin_start b == dt /\ bin_start b < bin_stop b
            /\ start <= bin_start b /\ bin_stop b <= stop) as Hbin.
  { intros i b [-> Hi]%lookup_grid.
    destruct (complete_stop start stop dt Hdt i Hi) as [Hw Hs].
    assert (0 <= inject_Z (Z.of_nat i)).
    { change 0 with (inject_Z 0). rewrite <- Zle_Qle. lia. }
    repeat split; try lra.
    unfold candidate_bin; cbn [bin_start]. nra. }
  rewrite length_fmap, length_seq.
  split; [subst n; lia|]. split; [exact Hbin|]. split; [|split; [|split]].
  - intros i b b' [-> Hi]%lookup_grid [-> Hi']%lookup_grid.
    destruct (complete_stop start stop dt Hdt i Hi) as [Hw Hs].
    rewrite Hw. unfold candidate_bin; cbn [bin_start].
    rewrite (inject_Z_S i). ring.
  - intros b Hb. rewrite head_lookup in Hb.
    by destruct (Hbin _ _ Hb) as (_ & _ & ? & _).
  - intros b Hb. rewrite last_lookup in Hb.
    by destruct (Hbin _ _ Hb) as (_ & _ & _ & ?).
  - assert (~ inject_Z (Z.of_nat (S n)) * dt <= stop - start) as Hlast.
    { rewrite <- (Qle_div_iff _ _ _ Hdt), Qle_floor_iff. subst n. lia. }
    rewrite inject_Z_S in Hlast. apply Qnot_le_lt in Hlast. lra.
Qed.

(** *** Validation and the cache *)

Lemma validate_keeps_state (method : string) (params : gmap string Q)
    (st st' : TTE) (r : Result Q) :
  validate method params st = (r, st') -> st' = st.
Proof.
  unfold validate.
  destruct (required_parameter method) as [key|]; [|by intros [= _ <-]].
  destruct (params !! key) as [v|]; [|by intros [= _ <-]].
  repeat match goal with |- context [if ?c then _ else _] => destruct c end;
    by intros [= _ <-].
Qed.

(** A call that raises has changed nothing. *)
Lemma create_time_bins_all_or_nothing (start stop : Q) (method : string)
    (params : gmap string Q) (st st' : TTE) (e : PyExc) :
  create_time_bins start stop method params st = (Raise e, st') -> st' = st.
Proof.
  unfold Binner.create_time_bins, mbind, M_bind.
  destruct (validate method params st) as [[v|e0] st0] eqn:Ev;
    apply validate_keeps_state in Ev as ->; [|by intros [= _ <-]].
  destruct (String.eqb method "constant"); [discriminate|].
  destruct (String.eqb method "significance"); [|discriminate].
  destruct (background st); [discriminate|]. by intros [= _ <-].
Qed.

(** C2.  A call with a method that is none of [constant], [significance],
    [bayesblocks], or with one of them but without its [dt], [sigma] or [p0],
    raises a [ConfigurationError], of class [RuntimeError], and leaves the
    instance, cached bins included, exactly as it was. *)
Theorem create_time_bins_rejects (start stop : Q) (method : string)
    (params : gmap string Q) (st : TTE) :
  (method <> "constant" /\ method <> "significance"
   /\ method <> "bayesblocks")
  \/ (method = "constant" /\ params !! "dt" = None)
  \/ (method = "significance" /\ params !! "sigma" = None)
  \/ (method = "bayesblocks" /\ params !! "p0" = None) ->
  exists e,
    create_time_bins start stop method params st = (Raise e, st)
    /\ exc_class e = ConfigurationError
    /\ ConfigurationError = RuntimeError.
Proof.
  unfold Binner.create_time_bins, validate, mbind, M_bind.
  intros [(H1 & H2 & H3)|[[-> H]|[[-> H]|[-> H]]]].
  - unfold required_parameter.
    apply String.eqb_neq in H1, H2, H3. rewrite H1, H2, H3.
    by eexists.
  - cbn [required_parameter String.eqb Ascii.eqb Bool.eqb]. rewrite H.
    by eexists.
  - cbn [required_parameter String.eqb Ascii.eqb Bool.eqb]. rewrite H.
    by eexists.
  - cbn [required_parameter String.eqb Ascii.eqb Bool.eqb]. rewrite H.
    by eexists.
Qed.



Lemma run_calls_no_success (calls : list Call) (st st' : TTE)
    (rs : list (Result unit)) :
  run_calls significance block_fitness ncp_prior calls st = (rs, st') ->
  Forall (fun r => exists e, r = Raise e) rs ->
  st' = st.
Proof.
  revert st rs. induction calls as [|c calls IH]; intros st rs; simpl.
  - by intros [= _ <-].
  - destruct (create_time_bins _ _ _ _ st) as [r st1] eqn:E1.
    destruct (run_calls _ _ _ calls st1) as [rs' st2] eqn:E2.
    intros [= <- <-] Hall. inversion Hall as [|? ? [e ->] Hall']; subst.
    apply create_time_bins_all_or_nothing in E1 as ->.
    by apply (IH st rs').
Qed.

(** C4.  On an instance on which no [create_time_bins] call has succeeded
    yet, whatever calls were attempted, reading [bins] or [text_bins] raises
    a [NotComputedError], of class [AttributeError]. *)
Theorem bins_before_create (evs : list Event)
    (bkg : option (list BackgroundPolynomial)) (calls : list Call)
    (rs : list (Result unit)) (st : TTE) :
  run_calls significance block_fitness ncp_prior calls (new_instance evs bkg)
  = (rs, st) ->
  Forall (fun r => exists e, r = Raise e) rs ->
  exists e1 e2,
    bins st = (Raise e1, st) /\ exc_class e1 = NotComputedError
    /\ text_bins st = (Raise e2, st) /\ exc_class e2 = NotComputedError
    /\ NotComputedError = AttributeError.
Proof.
  intros Hrun Hall.
  apply run_calls_no_success in Hrun as ->; [|assumption].
  by do 2 eexists.
Qed.

End Calls.

(** *** The theorems at concrete inputs *)

(** [dt = 1] over [[0, 10]] gives 10 bins, as [test_gbm_binning] checks. *)
Lemma constant_bins_witness :
  0 < 1 /\ 0 <= 10
  /\ exists bs,
       sample_create_time_bins 0 10 "constant" {["dt" := 1]} sample_instance
       = (Ok tt, mkTTE (events sample_instance) (background sample_instance)
                       (Some bs))
       /\ length bs = 10%nat.
Proof.
  split; [reflexivity|]. split; [discriminate|].
  destruct (constant_bins sample_significance sample_fitness sample_prior
              0 10 1 sample_instance) as (bs & Hrun & Hlen & _);
    [reflexivity|discriminate|].
  exists bs. split; [exact Hrun|].
  change (Qfloor ((10 - 0) / 1)) with 10%Z in Hlen. lia.
Defined.

Lemma create_time_bins_rejects_witness :
  ("constant" = "constant"
   /\ ({["p0" := 1 # 10]} : gmap string Q) !! "dt" = None)
  /\ exists e,
       sample_create_time_bins 0 10 "constant" {["p0" := 1 # 10]}
         after_bayesblocks
       = (Raise e, after_bayesblocks)
       /\ exc_class e = ConfigurationError
       /\ ConfigurationError = RuntimeError.
Proof.
  split; [split; reflexivity|].
  apply (create_time_bins_rejects sample_significance sample_fitness
           sample_prior 0 10 "constant" {["p0" := 1 # 10]} after_bayesblocks).
  right; left. split; reflexivity.
Defined.


Lemma bins_before_create_witness :
  run_calls sample_significance sample_fitness sample_prior failing_calls
    (new_instance sample_events (background sample_instance))
  = after_failing_calls
  /\ Forall (fun r => exists e, r = Raise e) (fst after_failing_calls)
  /\ exists e1 e2,
       bins (snd after_failing_calls) = (Raise e1, snd after_failing_calls)
       /\ exc_class e1 = NotComputedError
       /\ text_bins (snd after_failing_calls)
          = (Raise e2, snd after_failing_calls)
       /\ exc_class e2 = NotComputedError
       /\ NotComputedError = AttributeError.
Proof.
  assert (Forall (fun r : Result unit => exists e, r = Raise e)
            (fst after_failing_calls)) as Hall.
  { simpl. repeat constructor; eexists; reflexivity. }
  split; [vm_compute; reflexivity|]. split; [exact Hall|].
  apply (bins_before_create sample_significance sample_fitness sample_prior
           sample_events (background sample_instance) failing_calls
           (fst after_failing_calls) (snd after_failing_calls));
    [vm_compute; reflexivity|exact Hall].
Defined.

End BinnerProps.

(** ** More of the plugin prototype *)

Module PluginPrototypeMore.
Import Py PluginPrototype Samples PluginPrototypeProps.

Section More.

Variable is_valid_variable_name : string -> bool.

Local Abbreviation construct := (construct is_valid_variable_name).

(** X1.  The constructor succeeds exactly when the name is a valid
    identifier, is not ["total"] in any casing, and [nuisance_parameters] is
    a dict. *)
Theorem construct_succeeds_iff (name : string) (np : PyVal)
    (l : list (LogLevel * string)) :
  (exists w', construct name np l = (Ok tt, w'))
  <-> is_valid_variable_name name = true
      /\ lower name <> "total"
      /\ isinstance_dict np = true.
Proof.
  rewrite construct_run. split.
  - intros [w' E].
    destruct (is_valid_variable_name name); simpl in E; [|discriminate].
    destruct (String.eqb_spec (lower name) "total"); [discriminate|].
    destruct (isinstance_dict np); [done|discriminate].
  - intros (-> & Ht & ->). simpl.
    apply String.eqb_neq in Ht. rewrite Ht. by eexists.
Qed.

(** X2.  A successfully constructed plugin has exactly the attributes
    [_name], [_nuisance_parameters] and [_tag]: [nuisance_parameters] reads
    as the dict given, [tag] as [None], and nothing was logged. *)
Theorem construct_initial_state (name : string) (np : PyVal)
    (l : list (LogLevel * string)) (w' : World) :
  construct name np l = (Ok tt, w') ->
  nuisance_parameters w' = (Ok np, w')
  /\ _get_tag w' = (Ok VNone, w')
  /\ dom (self w')
     = ({["_name"; "_nuisance_parameters"; "_tag"]} : gset string)
  /\ log w' = l.
Proof.
  rewrite construct_run.
  repeat match goal with |- context [if ?b then _ else _] => destruct b end;
    intros E; inversion E; subst w'; clear E.
  unfold nuisance_parameters, _get_tag, getattr; simpl.
  rewrite lookup_insert_eq, lookup_insert_ne, lookup_insert_eq by done.
  repeat split; rewrite !dom_insert_L, dom_singleton_L; set_solver.
Qed.


(** X4.  The name is checked before the nuisance parameters: the
    constructor complains about a non-dict only when the name was accepted,
    and by then [_name] is already set on the discarded object. *)
Theorem construct_checks_name_first (name : string) (np : PyVal)
    (l : list (LogLevel * string)) (e : PyExc) (w' : World) :
  construct name np l = (Raise e, w') ->
  exc_msg e = not_a_dict_msg ->
  is_valid_variable_name name = true
  /\ lower name <> "total"
  /\ isinstance_dict np = false
  /\ self w' !! "_name" = Some (VStr name).
Proof.
  rewrite construct_run.
  destruct (is_valid_variable_name name); simpl;
    [|intros [= <- <-]; discriminate].
  destruct (String.eqb_spec (lower name) "total") as [Ht|Ht];
    [intros [= <- <-]; discriminate|].
  destruct (isinstance_dict np); simpl; [discriminate|].
  intros [= <- <-] _. repeat split; try done;
    simpl; by rewrite lookup_singleton_eq.
Qed.

(** X5.  The two setters touch one attribute each, whatever the outcome:
    [update_nuisance_parameters] only [_nuisance_parameters], the [tag]
    setter only [_tag]. *)
Theorem setters_touch_one_attribute (v : PyVal) (w : World) (attr : string) :
  (attr <> "_nuisance_parameters" ->
   self (snd (update_nuisance_parameters v w)) !! attr = self w !! attr)
  /\ (attr <> "_tag" ->
      self (snd (_set_tag v w)) !! attr = self w !! attr).
Proof.
  split; intros Hattr.
  - rewrite update_nuisance_parameters_run.
    destruct (isinstance_dict v); simpl; [|done].
    by rewrite lookup_insert_ne.
  - rewrite _set_tag_run.
    destruct (py_len v) as [[|[|[|[|n]]]]|]; try done.
    + destruct (py_iter v) as [|iv [|start [|x xs]]]; try done.
      simpl. by rewrite lookup_insert_ne.
    + destruct (py_iter v) as [|iv [|start [|end_ [|x xs]]]]; try done.
      simpl. by rewrite lookup_insert_ne.
Qed.

(** X6.  The last write wins: after two successful writes of the nuisance
    parameters, or of the tag, the instance is as if only the second had been
    made. *)
Theorem last_write_wins (v1 v2 : PyVal) (w w1 w2 : World) :
  (update_nuisance_parameters v1 w = (Ok tt, w1) ->
   update_nuisance_parameters v2 w1 = (Ok tt, w2) ->
   w2 = snd (update_nuisance_parameters v2 w))
  /\ (_set_tag v1 w = (Ok tt, w1) ->
      _set_tag v2 w1 = (Ok tt, w2) ->
      self w2 = self (snd (_set_tag v2 w))).
Proof.
  split.
  - rewrite !update_nuisance_parameters_run.
    destruct (isinstance_dict v1); [|discriminate]. intros [= <-].
    destruct (isinstance_dict v2); [|discriminate]. intros [= <-].
    simpl. by rewrite insert_insert_eq.
  - intros H1 H2.
    assert (self w1 = <["_tag" := default VNone (self w1 !! "_tag")]> (self w))
      as Hw1.
    { rewrite _set_tag_run in H1.
      destruct (py_len v1) as [[|[|[|[|n]]]]|]; try done.
      - destruct (py_iter v1) as [|iv [|start [|x xs]]]; try done.
        injection H1 as <-. simpl. by rewrite lookup_insert_eq.
      - destruct (py_iter v1) as [|iv [|start [|end_ [|x xs]]]]; try done.
        injection H1 as <-. simpl. by rewrite lookup_insert_eq. }
    rewrite _set_tag_run in H2 |- *.
    destruct (py_len v2) as [[|[|[|[|n]]]]|]; try done.
    + destruct (py_iter v2) as [|iv [|start [|x xs]]]; try done.
      injection H2 as <-. simpl. by rewrite Hw1, insert_insert_eq.
    + destruct (py_iter v2) as [|iv [|start [|end_ [|x xs]]]]; try done.
      injection H2 as <-. simpl. by rewrite Hw1, insert_insert_eq.
Qed.

Lemma chars_length (s : string) : length (chars s) = String.length s.
Proof. induction s as [|c s IH]; simpl; congruence. Qed.

(** Iteration yields as many items as [len] announces. *)
Lemma py_iter_length (v : PyVal) (n : nat) :
  py_len v = Some n -> length (py_iter v) = n.
Proof.
  destruct v; simpl; try discriminate; intros [= <-];
    auto using chars_length, length_fmap.
Qed.

(** X7.  The [tag] setter takes any value with a length of 2 or 3, a list,
    a string or a dict as well as a tuple: the unpacking never fails, and the
    tag reads as the items the value yields, padded with [None] to three. *)
Theorem tag_accepts_sized_iterables (spec : PyVal) (w : World) (n : nat) :
  py_len spec = Some n -> n = 2%nat \/ n = 3%nat ->
  exists w',
    _set_tag spec w = (Ok tt, w')
    /\ _get_tag w'
       = (Ok (VTuple (py_iter spec
                      ++ (if (n =? 2)%nat then [VNone] else []))%list), w').
Proof.
  intros Hlen Hn. pose proof (py_iter_length _ _ Hlen) as Hit.
  rewrite _set_tag_run, Hlen.
  destruct Hn as [-> | ->].
  - destruct (py_iter spec) as [|iv [|start [|x xs]]]; try discriminate.
    eexists; split; [reflexivity|].
    unfold _get_tag, getattr; simpl. by rewrite lookup_insert_eq.
  - destruct (py_iter spec) as [|iv [|start [|end_ [|x xs]]]];
      try discriminate.
    eexists; split; [reflexivity|].
    unfold _get_tag, getattr; simpl. by rewrite lookup_insert_eq.
Qed.

(** X8.  The type of the independent variable is never enforced: a tag
    whose first item is not an [IndependentVariable] is stored all the same,
    and the only trace is one [WARNING] naming its type; with an
    [IndependentVariable] nothing is logged. *)
Theorem tag_warns_unless_IndependentVariable (spec : PyVal) (w w' : World) :
  _set_tag spec w = (Ok tt, w') ->
  exists iv,
    head (py_iter spec) = Some iv
    /\ log w'
       = (if isinstance_IndependentVariable iv then log w
          else log w ++ [(WARNING, tag_warning iv)])%list
    /\ exists rest, self w' !! "_tag" = Some (VTuple (iv :: rest)).
Proof.
  rewrite _set_tag_run.
  destruct (py_len spec) as [[|[|[|[|n]]]]|]; try discriminate.
  - destruct (py_iter spec) as [|iv [|start [|x xs]]]; try discriminate.
    intros [= <-]. exists iv. simpl. rewrite lookup_insert_eq. eauto.
  - destruct (py_iter spec) as [|iv [|start [|end_ [|x xs]]]];
      try discriminate.
    intros [= <-]. exists iv. simpl. rewrite lookup_insert_eq. eauto.
Qed.

(** X9.  [get_name()] returns what the [name] property returns, an
    [AttributeError] included, and leaves the instance alone; its only effect
    is one [WARNING] pointing to the property. *)
Theorem get_name_agrees_with_name (w : World) :
  exists msg,
    get_name w
    = (fst (name w), mkWorld (self w) (log w ++ [(WARNING, msg)])).
Proof.
  unfold get_name, name, getattr. run_py.
  destruct (self w !! "_name"); by eexists.
Qed.

End More.

(** *** The theorems at concrete inputs *)

Lemma construct_initial_state_witness :
  exists w',
    construct (fun _ => true) "NAI3" sample_map [] = (Ok tt, w')
    /\ nuisance_parameters w' = (Ok sample_map, w')
    /\ _get_tag w' = (Ok VNone, w')
    /\ dom (self w')
       = ({["_name"; "_nuisance_parameters"; "_tag"]} : gset string)
    /\ log w' = [].
Proof.
  eexists. split; [reflexivity|].
  apply (construct_initial_state (fun _ => true) "NAI3" sample_map []).
  reflexivity.
Defined.


Lemma construct_checks_name_first_witness :
  exists e w',
    construct (fun _ => true) "NAI3" VNone [] = (Raise e, w')
    /\ exc_msg e = not_a_dict_msg
    /\ (fun _ : string => true) "NAI3" = true
    /\ lower "NAI3" <> "total"
    /\ isinstance_dict VNone = false
    /\ self w' !! "_name" = Some (VStr "NAI3").
Proof.
  do 2 eexists. split; [reflexivity|]. split; [reflexivity|].
  eapply (construct_checks_name_first (fun _ => true) "NAI3" VNone []);
    reflexivity.
Defined.

Lemma setters_touch_one_attribute_witness :
  "_name" <> "_nuisance_parameters" /\ "_name" <> "_tag"
  /\ self (snd (update_nuisance_parameters (VDict []) sample_world)) !! "_name"
     = self sample_world !! "_name"
  /\ self (snd (_set_tag (VTuple [VInt 1; VInt 2]) sample_world)) !! "_name"
     = self sample_world !! "_name".
Proof.
  split; [discriminate|]. split; [discriminate|]. split.
  - apply (setters_touch_one_attribute (VDict []) sample_world "_name").
    discriminate.
  - apply (setters_touch_one_attribute (VTuple [VInt 1; VInt 2])
             sample_world "_name").
    discriminate.
Defined.

Lemma last_write_wins_witness :
  exists w1 w2,
    _set_tag (VTuple [VInt 1; VInt 2]) sample_world = (Ok tt, w1)
    /\ _set_tag (VList [VInt 3; VInt 4; VInt 5]) w1 = (Ok tt, w2)
    /\ self w2
       = self (snd (_set_tag (VList [VInt 3; VInt 4; VInt 5]) sample_world)).
Proof.
  do 2 eexists. split; [reflexivity|]. split; [reflexivity|].
  eapply (proj2 (last_write_wins (VTuple [VInt 1; VInt 2])
                   (VList [VInt 3; VInt 4; VInt 5]) sample_world _ _));
    reflexivity.
Defined.

Lemma tag_accepts_sized_iterables_witness :
  py_len (VStr "ab") = Some 2%nat
  /\ exists w',
       _set_tag (VStr "ab") sample_world = (Ok tt, w')
       /\ _get_tag w' = (Ok (VTuple [VStr "a"; VStr "b"; VNone]), w').
Proof.
  split; [reflexivity|].
  apply (tag_accepts_sized_iterables (VStr "ab") sample_world 2);
    [reflexivity|by left].
Defined.

Lemma tag_warns_unless_IndependentVariable_witness :
  exists w',
    _set_tag (VTuple [VInt 1; VInt 2]) sample_world = (Ok tt, w')
    /\ exists iv,
         head (py_iter (VTuple [VInt 1; VInt 2])) = Some iv
         /\ log w'
            = (if isinstance_IndependentVariable iv then log sample_world
               else log sample_world ++ [(WARNING, tag_warning iv)])%list
         /\ exists rest, self w' !! "_tag" = Some (VTuple (iv :: rest)).
Proof.
  eexists. split; [reflexivity|].
  apply (tag_warns_unless_IndependentVariable (VTuple [VInt 1; VInt 2])
           sample_world).
  reflexivity.
Defined.

End PluginPrototypeMore.

(** ** More of the package data paths *)

Module PackageDataMore.
Import Py PackageData PackageDataInv Samples ExtraSamples PackageDataProps.

Lemma only_adds_ancestors_refl (p : Path) (os : OS) :
  only_adds_ancestors p os os.
Proof. repeat split; auto. Qed.

Lemma only_adds_ancestors_trans (p1 p2 : Path) (os os1 os2 : OS) :
  p1 `prefix_of` p2 ->
  only_adds_ancestors p1 os os1 -> only_adds_ancestors p2 os1 os2 ->
  only_adds_ancestors p2 os os2.
Proof.
  intros Hp (He1 & Hh1 & Hm1 & Ha1) (He2 & Hh2 & Hm2 & Ha2).
  split; [congruence|]. split; [congruence|]. split; [eauto|].
  intros q n Hq. destruct (Ha2 q n Hq) as [Hq1|[-> ?]]; [|by right].
  destruct (Ha1 q n Hq1) as [?|[-> ?]]; [by left|right].
  split; [done|]. by etrans.
Qed.

Lemma parent_prefix (p : Path) : parent p `prefix_of` p.
Proof.
  destruct p as [|x [|y l]].
  - done.
  - simpl. destruct (_ || _); [done|]. apply prefix_nil.
  - change (parent (x :: y :: l)) with (removelast (x :: y :: l)).
    destruct (exists_last (l := x :: y :: l) ltac:(discriminate))
      as (l' & a & ->).
    rewrite removelast_last. by apply prefix_app_r.
Qed.

(** [os.mkdir] either raises and changes nothing, or makes the missing
    directory. *)
Lemma os_mkdir_cases (p : Path) (os : OS) :
  (exists e, os_mkdir p os = (Raise e, os))
  \/ (fs os !! p = None
      /\ os_mkdir p os
         = (Ok tt, mkOS (environ os) (passwd_home os)
                        (<[p := Dir]> (fs os)))).
Proof.
  unfold os_mkdir. destruct (fs os !! p); [left; by eexists|].
  destruct (fs os !! parent p) as [[]|]; [right|left..]; eauto.
  destruct (nearest_is_file _ _ _); eauto.
Qed.

Lemma only_adds_ancestors_insert (p : Path) (os : OS) :
  fs os !! p = None ->
  only_adds_ancestors p os
    (mkOS (environ os) (passwd_home os) (<[p := Dir]> (fs os))).
Proof.
  unfold Path in *. intros Hp. repeat split; simpl.
  - intros q n Hq. rewrite lookup_insert_ne; [done|congruence].
  - intros q n. rewrite lookup_insert. case_decide as Hq.
    + intros [= <-]. right. by subst.
    + by left.
Qed.

(** [mkdir], with or without [parents], only ever adds directories on the
    way to the path it is given. *)
Lemma mkdir_fuel_only_adds_ancestors fuel (p : Path) parents exist_ok
    (os os' : OS) (r : Result unit) :
  mkdir_fuel fuel p parents exist_ok os = (r, os') ->
  only_adds_ancestors p os os'.
Proof.
  revert p parents exist_ok os os' r.
  induction fuel as [|fuel IH]; intros p parents exist_ok os os' r;
    cbn [mkdir_fuel];
    (destruct (os_mkdir_cases p os) as [[e ->]|[Hp ->]];
      [|intros [= <- <-]; by apply only_adds_ancestors_insert]);
    destruct (exc_class e);
    repeat match goal with
           | |- context [if ?b then _ else _] => destruct b
           end;
    try (intros [= <- <-]; apply only_adds_ancestors_refl).
  unfold mbind, M_bind.
  destruct (mkdir_fuel fuel (parent p) true true os) as [[[]|e1] os1] eqn:E1;
    apply IH in E1.
  - intros E2. apply IH in E2.
    eapply only_adds_ancestors_trans; eauto using parent_prefix.
  - intros [= <- <-].
    eapply only_adds_ancestors_trans;
      eauto using parent_prefix, only_adds_ancestors_refl.
Qed.

(** After a [mkdir] that returns, the path exists. *)
Lemma mkdir_fuel_ok_exists fuel (p : Path) parents exist_ok (os os' : OS) :
  mkdir_fuel fuel p parents exist_ok os = (Ok tt, os') ->
  is_Some (fs os' !! p).
Proof.
  revert p parents exist_ok os os'.
  induction fuel as [|fuel IH]; intros p parents exist_ok os os';
    cbn [mkdir_fuel];
    (destruct (os_mkdir_cases p os) as [[e ->]|[Hp ->]];
      [|intros [= <-]; simpl; rewrite lookup_insert_eq; eauto]);
    destruct (exc_class e);
    repeat match goal with
           | |- context [if ?b then _ else _] => destruct b eqn:?
           end;
    try discriminate;
    try (intros [= <-];
         match goal with
         | H : _ || negb (is_dir p os) = false |- _ =>
             apply orb_false_iff in H as [_ H%negb_false_iff];
             unfold is_dir in H; destruct (fs os !! p) as [[]|]; eauto;
             discriminate
         end).
  unfold mbind, M_bind.
  destruct (mkdir_fuel fuel (parent p) true true os) as [[[]|e1] os1];
    [|discriminate].
  apply IH.
Qed.

Lemma Path_home_state (os os' : OS) (r : Result Path) :
  Path_home os = (r, os') -> os' = os.
Proof.
  unfold Path_home. destruct (environ os !! "HOME"); [by intros [= _ <-]|].
  destruct (passwd_home os); by intros [= _ <-].
Qed.

(** The home directory depends on the environment and the password
    database only. *)
Lemma Path_home_same_env (os os' : OS) :
  environ os' = environ os -> passwd_home os' = passwd_home os ->
  fst (Path_home os') = fst (Path_home os).
Proof.
  intros He Hh. unfold Path_home. rewrite He, Hh.
  destruct (environ os !! "HOME"); [done|]. by destruct (passwd_home os).
Qed.

(** A run of [get_path_of_user_config], computed. *)
Lemma get_path_of_user_config_run (custom : option string) (os : OS) :
  get_path_of_user_config custom os =
  match fst (Path_home os) with
  | Raise e => (Raise e, os)
  | Ok home =>
      match fs os !! default_config_path home with
      | Some _ => (Ok (default_config_path home), os)
      | None =>
          match mkdir (default_config_path home) true false os with
          | (Ok _, os') => (Ok (default_config_path home), os')
          | (Raise e, os') => (Raise e, os')
          end
      end
  end.
Proof.
  unfold get_path_of_user_config, mbind, M_bind.
  destruct (Path_home os) as [[home|e] os0] eqn:Eh;
    apply Path_home_state in Eh as ->; [|reflexivity].
  cbn [fst]. rewrite joinpath_default. unfold path_exists.
  destruct (fs os !! default_config_path home) as [n|] eqn:Ec.
  - rewrite bool_decide_eq_true_2 by eauto. reflexivity.
  - rewrite bool_decide_eq_false_2 by (intros [? ?]; discriminate).
    cbn [negb].
    by destruct (mkdir (default_config_path home) true false os) as [[[]|] ?].
Qed.

(** A run of [get_path_of_user_dir], computed. *)
Lemma get_path_of_user_dir_run (os : OS) :
  get_path_of_user_dir os =
  match fst (Path_home os) with
  | Raise e => (Raise e, os)
  | Ok home =>
      match fs os !! user_dir_path home with
      | Some _ => (Ok (user_dir_path home), os)
      | None =>
          match mkdir (user_dir_path home) false false os with
          | (Ok _, os') => (Ok (user_dir_path home), os')
          | (Raise e, os') => (Raise e, os')
          end
      end
  end.
Proof.
  unfold get_path_of_user_dir, mbind, M_bind.
  destruct (Path_home os) as [[home|e] os0] eqn:Eh;
    apply Path_home_state in Eh as ->; [|reflexivity].
  cbn [fst].
  change (joinpath home ".threeML") with (user_dir_path home).
  unfold path_exists.
  destruct (fs os !! user_dir_path home) as [n|] eqn:Ec.
  - rewrite bool_decide_eq_true_2 by eauto. reflexivity.
  - rewrite bool_decide_eq_false_2 by (intros [? ?]; discriminate).
    cbn [negb].
    by destruct (mkdir (user_dir_path home) false false os) as [[[]|] ?].
Qed.

Lemma parent_user_dir (home : Path) : parent (user_dir_path home) = home.
Proof.
  unfold user_dir_path.
  destruct home as [|x l]; [reflexivity|]. by apply parent_snoc.
Qed.

(** The walk to the nearest existing ancestor follows [parent]: fuel beyond
    the number of parts is not used. *)
Lemma nearest_is_file_enough (fuel1 fuel2 : nat) (p : Path)
    (files : gmap (list string) Node) :
  length p <= fuel1 -> length p <= fuel2 ->
  nearest_is_file fuel1 p files = nearest_is_file fuel2 p files.
Proof.
  revert fuel2 p.
  induction fuel1 as [|fuel1 IH]; intros fuel2 p H1 H2;
    destruct fuel2 as [|fuel2]; cbn [nearest_is_file]; try reflexivity;
    (destruct (files !! p) as [[]|]; [reflexivity..|]);
    (case_bool_decide as Hp; [reflexivity|]);
    apply parent_length in Hp; try lia.
  apply IH; lia.
Qed.

(** Below an existing directory [base], with the whole chain down to
    [base ++ suffix] missing, no regular file is in the way. *)
Lemma nearest_is_file_chain (base : Path) (files : gmap (list string) Node) :
  base <> [] ->
  files !! base = Some Dir ->
  forall (suffix : list string) (fuel : nat),
    length suffix <= fuel ->
    (forall k, 1 <= k <= length suffix ->
               files !! (base ++ take k suffix)%list = None) ->
    nearest_is_file fuel (base ++ suffix)%list files = false.
Proof.
  unfold Path in *. intros Hbase Hb suffix.
  induction suffix as [|x s IH] using rev_ind; intros fuel Hfuel Hmiss.
  - rewrite app_nil_r.
    destruct fuel; cbn [nearest_is_file]; unfold Path in *; by rewrite Hb.
  - rewrite length_app in Hfuel, Hmiss. simpl in Hfuel, Hmiss.
    destruct fuel as [|fuel]; [lia|]. cbn [nearest_is_file].
    unfold Path in *.
    assert (files !! (base ++ s ++ [x])%list = None) as ->.
    { rewrite <- (take_ge (s ++ [x]) (length s + 1)) at 1
        by (rewrite length_app; simpl; lia).
      apply Hmiss. lia. }
    rewrite app_assoc, parent_snoc by (by destruct base).
    rewrite bool_decide_eq_false_2.
    2:{ intros E%(f_equal length). rewrite !length_app in E.
        simpl in E. lia. }
    apply IH; [lia|].
    intros k Hk. rewrite <- (take_app_le s [x]) by lia. apply Hmiss. lia.
Qed.

(** [mkdir(parents=True)] below an existing directory [base] makes every
    missing directory of the chain down to [base ++ suffix]. *)
Lemma mkdir_fuel_chain (base : Path) :
  base <> [] ->
  forall (suffix : list string) fuel exist_ok (os : OS),
    suffix <> [] -> length suffix <= fuel ->
    fs os !! base = Some Dir ->
    (forall k, 1 <= k <= length suffix ->
               fs os !! (base ++ take k suffix)%list = None) ->
    exists os',
      mkdir_fuel fuel (base ++ suffix)%list true exist_ok os = (Ok tt, os')
      /\ only_adds_ancestors (base ++ suffix)%list os os'
      /\ (forall k, k <= length suffix ->
                    fs os' !! (base ++ take k suffix)%list = Some Dir).
Proof.
  unfold Path in *. intros Hbase suffix.
  induction suffix as [|x s IH] using rev_ind;
    intros fuel exist_ok os Hne Hfuel Hb Hmiss; [done|].
  rewrite length_app in Hfuel, Hmiss. simpl in Hfuel, Hmiss.
  assert (parent (base ++ s ++ [x]) = base ++ s)%list as Hpar.
  { rewrite app_assoc. apply parent_snoc. by destruct base. }
  assert (fs os !! (base ++ s ++ [x])%list = None) as Hp.
  { rewrite <- (take_ge (s ++ [x]) (length s + 1)) at 1
      by (rewrite length_app; simpl; lia).
    apply Hmiss. lia. }
  assert (base ++ s ++ [x] <> base ++ s)%list as Hneq.
  { intros E%(f_equal length). rewrite !length_app in E. simpl in E. lia. }
  destruct (decide (s = [])) as [->|Hs].
  - rewrite app_nil_r in Hpar. simpl in *.
    rewrite mkdir_fuel_below_dir by (done || by rewrite Hpar).
    eexists. split; [reflexivity|].
    split; [by apply only_adds_ancestors_insert|].
    intros [|[|k]] Hk; simpl; [|by rewrite lookup_insert_eq|lia].
    rewrite app_nil_r, lookup_insert_ne; [done|].
    intros E%(f_equal length). rewrite length_app in E. simpl in E. lia.
  - assert (1 <= length s) as Hlen by (destruct s; simpl; [done|lia]).
    destruct fuel as [|fuel]; [lia|].
    assert (fs os !! (base ++ s)%list = None) as Hps.
    { rewrite <- (take_app_length s [x]) at 1. apply Hmiss. lia. }
    assert (nearest_is_file (length (base ++ s ++ [x])) (base ++ s)%list
              (fs os) = false) as Hfile.
    { apply nearest_is_file_chain; [done|done|rewrite !length_app; lia|].
      intros k Hk. rewrite <- (take_app_le s [x]) by lia. apply Hmiss. lia. }
    rewrite mkdir_fuel_missing_parent by (rewrite ?Hpar; done).
    unfold mbind, M_bind. rewrite Hpar.
    destruct (IH fuel true os Hs ltac:(lia) Hb) as (os1 & -> & Hadd1 & Hdir1).
    { intros k Hk. rewrite <- (take_app_le s [x]) by lia. apply Hmiss. lia. }
    assert (fs os1 !! (base ++ s ++ [x])%list = None) as Hp1.
    { destruct (fs os1 !! (base ++ s ++ [x])%list) as [n|] eqn:E; [|done].
      destruct Hadd1 as (_ & _ & _ & Hnew).
      destruct (Hnew _ _ E) as [E'|[_ Hpre%prefix_length]]; [congruence|].
      rewrite !length_app in Hpre. simpl in Hpre. lia. }
    assert (fs os1 !! (base ++ s)%list = Some Dir) as Hps1.
    { rewrite <- (take_ge s (length s)) at 1 by lia. by apply Hdir1. }
    rewrite mkdir_fuel_below_dir by (done || by rewrite Hpar).
    eexists. split; [reflexivity|]. split.
    + eapply only_adds_ancestors_trans;
        [|exact Hadd1|by apply only_adds_ancestors_insert].
      rewrite (app_assoc base s [x]). by apply prefix_app_r.
    + intros k Hk. rewrite length_app in Hk. simpl in Hk. cbn [fs].
      destruct (decide (k <= length s)) as [Hle|Hgt].
      * rewrite take_app_le by done.
        rewrite lookup_insert_ne; [by apply Hdir1|].
        intros E%(f_equal length).
        rewrite !length_app, length_take in E. simpl in E. lia.
      * rewrite take_ge by (rewrite length_app; simpl; lia).
        by rewrite lookup_insert_eq.
Qed.

(** X10.  Below an existing home directory [get_path_of_user_dir()] returns
    [home/.threeML]; afterwards that path exists, as a directory if the call
    had to make it. *)
Theorem get_path_of_user_dir_below_home (os : OS) (home : Path) :
  Path_home os = (Ok home, os) ->
  fs os !! home = Some Dir ->
  exists os',
    get_path_of_user_dir os = (Ok (user_dir_path home), os')
    /\ is_Some (fs os' !! user_dir_path home)
    /\ (fs os !! user_dir_path home = None ->
        fs os' !! user_dir_path home = Some Dir).
Proof.
  intros Hhome Hh. rewrite get_path_of_user_dir_run, Hhome. cbn [fst].
  destruct (fs os !! user_dir_path home) as [n|] eqn:Ec.
  - exists os. rewrite Ec. split; [done|]. split; [eauto|done].
  - unfold mkdir. rewrite mkdir_fuel_below_dir
      by (done || by rewrite parent_user_dir).
    eexists. split; [reflexivity|]. cbn [fs]. rewrite lookup_insert_eq. eauto.
Qed.

(** X11.  [get_path_of_user_dir()] does not make parents: where
    [home/.threeML] is missing and the home is not a directory the call
    raises and creates nothing.  It raises [NotADirectoryError] where the
    home, or the nearest ancestor of a missing home that exists, is a regular
    file, and [FileNotFoundError] otherwise. *)
Theorem get_path_of_user_dir_needs_home (os : OS) (home : Path) :
  Path_home os = (Ok home, os) ->
  fs os !! user_dir_path home = None ->
  fs os !! home <> Some Dir ->
  exists e,
    get_path_of_user_dir os = (Raise e, os)
    /\ exc_class e
       = if nearest_is_file (length home) home (fs os)
         then NotADirectoryError else FileNotFoundError.
Proof.
  intros Hhome Hc Hh. rewrite get_path_of_user_dir_run, Hhome. cbn [fst].
  rewrite Hc. unfold mkdir. cbn [mkdir_fuel]. unfold os_mkdir.
  rewrite Hc, parent_user_dir.
  destruct (fs os !! home) as [[]|] eqn:Eh; [done| |].
  - assert (nearest_is_file (length home) home (fs os) = true) as ->
      by (destruct (length home); cbn [nearest_is_file]; by rewrite Eh).
    by eexists.
  - rewrite (nearest_is_file_enough _ (length home))
      by (unfold user_dir_path; rewrite ?length_app; simpl; lia).
    destruct (nearest_is_file _ _ _); by eexists.
Qed.

(** X12.  [get_path_of_user_config()] makes the whole chain: whatever part
    of [home/.config/threeML] is missing below an existing directory is
    created, a missing home directory included, and the call returns the
    path. *)
Theorem get_path_of_user_config_makes_parents (custom : option string)
    (os : OS) (home base : Path) (suffix : list string) :
  Path_home os = (Ok home, os) ->
  default_config_path home = (base ++ suffix)%list ->
  base <> [] -> suffix <> [] ->
  fs os !! base = Some Dir ->
  (forall k, 1 <= k <= length suffix ->
             fs os !! (base ++ take k suffix)%list = None) ->
  exists os',
    get_path_of_user_config custom os = (Ok (default_config_path home), os')
    /\ (forall k, k <= length suffix ->
                  fs os' !! (base ++ take k suffix)%list = Some Dir).
Proof.
  unfold Path in *. intros Hhome Hpath Hbase Hsuffix Hb Hmiss.
  rewrite get_path_of_user_config_run, Hhome. cbn [fst].
  rewrite Hpath.
  match goal with
  | |- context [match ?x with Some _ => _ | None => _ end] =>
      assert (x = None) as ->
  end.
  { pose proof (Hmiss (length suffix)) as Hlast.
    rewrite take_ge in Hlast by lia.
    apply Hlast. destruct suffix; simpl; [done|lia]. }
  unfold mkdir.
  destruct (mkdir_fuel_chain base Hbase suffix
              (S (length (base ++ suffix))) false os)
    as (os' & -> & _ & Hdirs); try done.
  { rewrite length_app. lia. }
  by exists os'.
Qed.

(** X13.  Both directory getters are idempotent: after a call that
    returned, a second call returns the same path and changes nothing. *)
Theorem package_paths_idempotent (custom custom' : option string)
    (os os' : OS) (p : Path) :
  (get_path_of_user_config custom os = (Ok p, os') ->
   get_path_of_user_config custom' os' = (Ok p, os'))
  /\ (get_path_of_user_dir os = (Ok p, os') ->
      get_path_of_user_dir os' = (Ok p, os')).
Proof.
  split.
  - rewrite !get_path_of_user_config_run.
    destruct (fst (Path_home os)) as [home|e] eqn:Eh; [|discriminate].
    destruct (fs os !! default_config_path home) as [n|] eqn:Ec.
    + intros [= <- <-]. by rewrite Eh, Ec.
    + unfold mkdir.
      destruct (mkdir_fuel _ _ true false os) as [[[]|e] os1] eqn:Em;
        [|discriminate].
      intros [= <- <-].
      pose proof (mkdir_fuel_only_adds_ancestors _ _ _ _ _ _ _ Em)
        as (He & Hh & _).
      rewrite (Path_home_same_env os os1 He Hh), Eh.
      by destruct (mkdir_fuel_ok_exists _ _ _ _ _ _ Em) as [n ->].
  - rewrite !get_path_of_user_dir_run.
    destruct (fst (Path_home os)) as [home|e] eqn:Eh; [|discriminate].
    destruct (fs os !! user_dir_path home) as [n|] eqn:Ec.
    + intros [= <- <-]. by rewrite Eh, Ec.
    + unfold mkdir.
      destruct (mkdir_fuel _ _ false false os) as [[[]|e] os1] eqn:Em;
        [|discriminate].
      intros [= <- <-].
      pose proof (mkdir_fuel_only_adds_ancestors _ _ _ _ _ _ _ Em)
        as (He & Hh & _).
      rewrite (Path_home_same_env os os1 He Hh), Eh.
      by destruct (mkdir_fuel_ok_exists _ _ _ _ _ _ Em) as [n ->].
Qed.

(** X14.  Whatever their outcome, the two getters leave the environment
    alone, alter nothing that exists, and add nothing but directories on the
    way to one path; when they return, they return that path and it
    exists. *)
Theorem package_paths_only_add_ancestors (custom : option string)
    (os os' : OS) (r : Result Path) :
  (get_path_of_user_config custom os = (r, os') ->
   exists p, only_adds_ancestors p os os'
             /\ forall p', r = Ok p' -> p' = p /\ is_Some (fs os' !! p'))
  /\ (get_path_of_user_dir os = (r, os') ->
      exists p, only_adds_ancestors p os os'
                /\ forall p', r = Ok p' -> p' = p /\ is_Some (fs os' !! p')).
Proof.
  split.
  - rewrite get_path_of_user_config_run.
    destruct (fst (Path_home os)) as [home|e] eqn:Eh.
    2:{ intros [= <- <-]. exists []. split;
          [apply only_adds_ancestors_refl|discriminate]. }
    destruct (fs os !! default_config_path home) as [n|] eqn:Ec.
    + intros [= <- <-]. exists (default_config_path home).
      split; [apply only_adds_ancestors_refl|].
      intros p' [= <-]. rewrite Ec. eauto.
    + unfold mkdir in *.
      destruct (mkdir_fuel _ _ true false os) as [[[]|e] os1] eqn:Em;
        intros [= <- <-]; exists (default_config_path home);
        (split; [by eapply mkdir_fuel_only_adds_ancestors|]);
        [|discriminate].
      intros p' [= <-]. split; [done|]. by eapply mkdir_fuel_ok_exists.
  - rewrite get_path_of_user_dir_run.
    destruct (fst (Path_home os)) as [home|e] eqn:Eh.
    2:{ intros [= <- <-]. exists []. split;
          [apply only_adds_ancestors_refl|discriminate]. }
    destruct (fs os !! user_dir_path home) as [n|] eqn:Ec.
    + intros [= <- <-]. exists (user_dir_path home).
      split; [apply only_adds_ancestors_refl|].
      intros p' [= <-]. rewrite Ec. eauto.
    + unfold mkdir in *.
      destruct (mkdir_fuel _ _ false false os) as [[[]|e] os1] eqn:Em;
        intros [= <- <-]; exists (user_dir_path home);
        (split; [by eapply mkdir_fuel_only_adds_ancestors|]);
        [|discriminate].
      intros p' [= <-]. split; [done|]. by eapply mkdir_fuel_ok_exists.
Qed.

(** X15.  Where the home directory cannot be determined, [HOME] unset and
    no password entry, both getters raise [RuntimeError] and change
    nothing. *)
Theorem package_paths_need_home (custom : option string) (os : OS) :
  environ os !! "HOME" = None -> passwd_home os = None ->
  exists e,
    get_path_of_user_config custom os = (Raise e, os)
    /\ get_path_of_user_dir os = (Raise e, os)
    /\ exc_class e = RuntimeError.
Proof.
  intros He Hh.
  rewrite get_path_of_user_config_run, get_path_of_user_dir_run.
  unfold Path_home. rewrite He, Hh. by eexists.
Qed.

(** X16.  Where [home/.config] is a regular file,
    [get_path_of_user_config()] raises [NotADirectoryError] and creates
    nothing. *)
Theorem get_path_of_user_config_blocked_by_file (custom : option string)
    (os : OS) (home : Path) :
  Path_home os = (Ok home, os) ->
  fs os !! default_config_path home = None ->
  fs os !! (home ++ [".config"])%list = Some File ->
  exists e,
    get_path_of_user_config custom os = (Raise e, os)
    /\ exc_class e = NotADirectoryError.
Proof.
  intros Hhome Hc Hp. rewrite get_path_of_user_config_run, Hhome. cbn [fst].
  rewrite Hc. unfold mkdir. cbn [mkdir_fuel]. unfold os_mkdir at 1.
  rewrite Hc, parent_default. unfold Path in *. rewrite Hp. by eexists.
Qed.

(** *** The theorems at concrete inputs *)

Lemma get_path_of_user_dir_below_home_witness :
  Path_home sample_os = (Ok ["/"; "home"; "user"], sample_os)
  /\ fs sample_os !! ["/"; "home"; "user"] = Some Dir
  /\ exists os',
       get_path_of_user_dir sample_os
       = (Ok ["/"; "home"; "user"; ".threeML"], os')
       /\ is_Some (fs os' !! ["/"; "home"; "user"; ".threeML"])
       /\ (fs sample_os !! ["/"; "home"; "user"; ".threeML"] = None ->
           fs os' !! ["/"; "home"; "user"; ".threeML"] = Some Dir).
Proof.
  split; [reflexivity|]. split; [reflexivity|].
  apply (get_path_of_user_dir_below_home sample_os ["/"; "home"; "user"]);
    reflexivity.
Defined.

Lemma get_path_of_user_dir_needs_home_witness :
  (Path_home home_file_os = (Ok ["/"; "home"; "user"], home_file_os)
   /\ fs home_file_os !! ["/"; "home"; "user"; ".threeML"] = None
   /\ fs home_file_os !! ["/"; "home"; "user"] <> Some Dir
   /\ exists e,
        get_path_of_user_dir home_file_os = (Raise e, home_file_os)
        /\ exc_class e = NotADirectoryError)
  /\ (Path_home bare_os = (Ok ["/"; "home"; "user"], bare_os)
      /\ fs bare_os !! ["/"; "home"; "user"; ".threeML"] = None
      /\ fs bare_os !! ["/"; "home"; "user"] <> Some Dir
      /\ exists e,
           get_path_of_user_dir bare_os = (Raise e, bare_os)
           /\ exc_class e = FileNotFoundError).
Proof.
  split; (split; [reflexivity|]; split; [reflexivity|];
          split; [discriminate|]).
  - apply (get_path_of_user_dir_needs_home home_file_os
             ["/"; "home"; "user"]);
      [reflexivity|reflexivity|discriminate].
  - apply (get_path_of_user_dir_needs_home bare_os ["/"; "home"; "user"]);
      [reflexivity|reflexivity|discriminate].
Defined.

Lemma get_path_of_user_config_makes_parents_witness :
  Path_home bare_os = (Ok ["/"; "home"; "user"], bare_os)
  /\ fs bare_os !! ["/"] = Some Dir
  /\ exists os',
       get_path_of_user_config (Some "/tmp/custom") bare_os
       = (Ok ["/"; "home"; "user"; ".config"; "threeML"], os')
       /\ forall k, k <= 4 ->
            fs os' !! (["/"] ++ take k ["home"; "user"; ".config";
                                        "threeML"])%list
            = Some Dir.
Proof.
  split; [reflexivity|]. split; [reflexivity|].
  apply (get_path_of_user_config_makes_parents (Some "/tmp/custom") bare_os
           ["/"; "home"; "user"] ["/"]
           ["home"; "user"; ".config"; "threeML"]);
    try reflexivity; try discriminate.
  intros [|[|[|[|[|k]]]]] Hk; simpl in Hk; try lia; reflexivity.
Defined.

Lemma package_paths_idempotent_witness :
  exists os',
    get_path_of_user_config None bare_os
    = (Ok ["/"; "home"; "user"; ".config"; "threeML"], os')
    /\ get_path_of_user_config (Some "/tmp/custom") os'
       = (Ok ["/"; "home"; "user"; ".config"; "threeML"], os').
Proof.
  eexists. split; [vm_compute; reflexivity|].
  eapply (proj1 (package_paths_idempotent None (Some "/tmp/custom")
                   bare_os _ _)).
  vm_compute; reflexivity.
Defined.

Lemma package_paths_only_add_ancestors_witness :
  exists os' p,
    get_path_of_user_dir sample_os
    = (Ok ["/"; "home"; "user"; ".threeML"], os')
    /\ only_adds_ancestors p sample_os os'
    /\ forall p', Ok ["/"; "home"; "user"; ".threeML"] = Ok p' ->
                  p' = p /\ is_Some (fs os' !! p').
Proof.
  eexists.
  assert (get_path_of_user_dir sample_os
          = (Ok ["/"; "home"; "user"; ".threeML"],
             snd (get_path_of_user_dir sample_os))) as Hrun
    by (vm_compute; reflexivity).
  destruct (proj2 (package_paths_only_add_ancestors None sample_os _ _) Hrun)
    as (p & Hadd & Hret).
  exists p. split; [exact Hrun|]. split; assumption.
Defined.

Lemma package_paths_need_home_witness :
  environ homeless_os !! "HOME" = None /\ passwd_home homeless_os = None
  /\ exists e,
       get_path_of_user_config None homeless_os = (Raise e, homeless_os)
       /\ get_path_of_user_dir homeless_os = (Raise e, homeless_os)
       /\ exc_class e = RuntimeError.
Proof.
  split; [reflexivity|]. split; [reflexivity|].
  apply (package_paths_need_home None homeless_os); reflexivity.
Defined.

Lemma get_path_of_user_config_blocked_by_file_witness :
  Path_home dot_config_file_os
  = (Ok ["/"; "home"; "user"], dot_config_file_os)
  /\ fs dot_config_file_os !! ["/"; "home"; "user"; ".config"] = Some File
  /\ exists e,
       get_path_of_user_config None dot_config_file_os
       = (Raise e, dot_config_file_os)
       /\ exc_class e = NotADirectoryError.
Proof.
  split; [reflexivity|]. split; [reflexivity|].
  apply (get_path_of_user_config_blocked_by_file None dot_config_file_os
           ["/"; "home"; "user"]); reflexivity.
Defined.

End PackageDataMore.

(** ** The test helpers *)

Module TestGbmProps.
Import TestGbm ExtraSamples.
Local Open Scope Q_scope.

Section Props.

Variable np_round : Q -> nat -> Q.

Local Abbreviation examine_bins := (examine_bins np_round).

(** *** [examine_bins] *)

(** When [examine_bins] returns. *)
Lemma examine_bins_returns_iff (starts stops : list Q)
    (real_start real_stop : Q) (n : Z) :
  examine_bins [starts; stops] real_start real_stop n = Returned tt
  <-> exists first_start last_stop,
        head starts = Some first_start /\ last stops = Some last_stop
        /\ real_start <= np_round first_start 3
        /\ np_round last_stop 3 <= real_stop
        /\ forallb (fun xy => negb (Qle_bool xy.2 xy.1)) (zip starts stops)
           = true
        /\ Z.of_nat (length starts) = n
        /\ Z.of_nat (length stops) = n.
Proof.
  unfold examine_bins.
  destruct (head starts) as [s0|];
    [|split; [discriminate|intros (? & ? & [=] & _)]].
  destruct (Qle_bool real_start (np_round s0 3)) eqn:E1; simpl.
  2:{ split; [discriminate|]. intros (? & ? & [= <-] & _ & H & _).
      apply Qle_bool_iff in H. congruence. }
  destruct (last stops) as [sl|];
    [|split; [discriminate|intros (? & ? & _ & [=] & _)]].
  destruct (Qle_bool (np_round sl 3) real_stop) eqn:E2; simpl.
  2:{ split; [discriminate|]. intros (? & ? & _ & [= <-] & _ & H & _).
      apply Qle_bool_iff in H. congruence. }
  destruct (forallb _ _) eqn:E3; simpl;
    [|split; [discriminate|intros (? & ? & _ & _ & _ & _ & [=] & _)]].
  destruct (Z.eqb_spec (Z.of_nat (length starts)) n) as [E4|E4]; simpl;
    [|split; [discriminate|intros (? & ? & _ & _ & _ & _ & _ & ? & _); done]].
  destruct (Z.eqb_spec (Z.of_nat (length stops)) n) as [E5|E5]; simpl;
    [|split; [discriminate|intros (? & ? & _ & _ & _ & _ & _ & _ & ?); done]].
  split; [intros _|done].
  exists s0, sl. apply Qle_bool_iff in E1, E2. done.
Qed.

(** X17.  An empty bin set never passes [examine_bins], not even when no
    bins are expected: with no starts the first look at [starts[0]] raises
    [IndexError]. *)
Theorem examine_bins_empty (starts stops : list Q) (real_start real_stop : Q)
    (n : Z) :
  starts = [] \/ stops = [] ->
  exists e,
    examine_bins [starts; stops] real_start real_stop n = Raised e
    /\ (starts = [] -> e = IndexError).
Proof.
  intros H. destruct (examine_bins _ _ _ _) as [[]|e] eqn:E.
  - apply examine_bins_returns_iff in E
      as (s0 & sl & Hh & Hl & _). destruct H as [-> | ->]; discriminate.
  - exists e. split; [done|]. intros ->. simpl in E. congruence.
Qed.

(** X18.  What a pass of [examine_bins] guarantees: both arrays have the
    expected length, which is at least one, and every bin begins before it
    ends. *)
Theorem examine_bins_sound (starts stops : list Q) (real_start real_stop : Q)
    (n : Z) :
  examine_bins [starts; stops] real_start real_stop n = Returned tt ->
  Z.of_nat (length starts) = n
  /\ length stops = length starts
  /\ (1 <= n)%Z
  /\ forall i x y, starts !! i = Some x -> stops !! i = Some y -> x < y.
Proof.
  intros (s0 & sl & Hh & _ & _ & _ & Hall & Hn1 & Hn2)%examine_bins_returns_iff.
  split; [done|]. split; [lia|]. split.
  - destruct starts; [discriminate|]. simpl in Hn1. lia.
  - intros i x y Hx Hy.
    assert (In (x, y) (zip starts stops)) as Hin.
    { apply list_elem_of_In, list_elem_of_lookup. exists i.
      apply lookup_zip_with_Some. eauto. }
    rewrite forallb_forall in Hall. apply Hall in Hin. simpl in Hin.
    apply negb_true_iff in Hin.
    apply Qnot_le_lt. intros Hle%Qle_bool_iff. congruence.
Qed.

(** X19.  [examine_bins] looks at the bounds only at the two ends and never
    compares one bin with the next: into a bin set that passes, any bin
    [x < y] whatsoever can be inserted away from the ends, and the result
    passes with one more bin expected. *)
Theorem examine_bins_interior_unchecked (s1 s2 e1 e2 : list Q) (x y : Q)
    (real_start real_stop : Q) (n : Z) :
  s1 <> [] -> e2 <> [] -> length s1 = length e1 -> x < y ->
  examine_bins [(s1 ++ s2)%list; (e1 ++ e2)%list] real_start real_stop n
  = Returned tt ->
  examine_bins [(s1 ++ x :: s2)%list; (e1 ++ y :: e2)%list]
               real_start real_stop (n + 1)
  = Returned tt.
Proof.
  intros Hs1 He2 Hlen Hxy.
  rewrite !examine_bins_returns_iff.
  intros (s0 & sl & Hh & Hl & Hrs & Hre & Hall & Hn1 & Hn2).
  exists s0, sl. repeat apply conj; try assumption.
  - destruct s1; [done|exact Hh].
  - rewrite last_app in Hl |- *. rewrite last_cons.
    destruct (last e2) eqn:El; [done|].
    destruct e2; [done|]. by rewrite last_cons in El; destruct (last e2).
  - rewrite zip_with_app in Hall |- * by done.
    rewrite forallb_app in Hall |- *.
    apply andb_true_iff in Hall as [H1 H2]. simpl.
    rewrite H1, H2, andb_true_r. apply negb_true_iff.
    destruct (Qle_bool y x) eqn:E; [|done].
    apply Qle_bool_iff in E. lra.
  - rewrite !length_app in *. simpl. lia.
  - rewrite !length_app in *. simpl. lia.
Qed.

End Props.

(** *** The theorems at concrete inputs *)

Local Abbreviation examine_bins := (examine_bins sample_np_round).

Lemma examine_bins_empty_witness :
  exists e,
    examine_bins [[]; []] 0 10 0 = Raised e
    /\ (([] : list Q) = [] -> e = IndexError).
Proof.
  apply (examine_bins_empty sample_np_round [] [] 0 10 0). by left.
Defined.

Lemma examine_bins_sound_witness :
  examine_bins [[0; 1; 2]; [1; 2; 3]] 0 3 3 = Returned tt
  /\ Z.of_nat (length [0; 1; 2]) = 3%Z
  /\ length [1; 2; 3] = length [0; 1; 2]
  /\ (1 <= 3)%Z
  /\ forall i x y, [0; 1; 2] !! i = Some x -> [1; 2; 3] !! i = Some y ->
                   x < y.
Proof.
  split; [reflexivity|].
  apply (examine_bins_sound sample_np_round [0; 1; 2] [1; 2; 3] 0 3 3).
  reflexivity.
Defined.

(** A bin far outside [[0, 3]], overlapping nothing it should follow, goes
    unnoticed between the first and the last. *)
Lemma examine_bins_interior_unchecked_witness :
  examine_bins [[0; 2]; [1; 3]] 0 3 2 = Returned tt
  /\ examine_bins [[0; 50; 2]; [1; 60; 3]] 0 3 3 = Returned tt.
Proof.
  split; [reflexivity|].
  apply (examine_bins_interior_unchecked sample_np_round
           [0] [2] [1] [3] 50 60 0 3 2);
    try reflexivity; discriminate.
Defined.

End TestGbmProps.
